(** * ProblemSetter: ingestion, enrichment, grading and the exercise query

    A shallow embedding of [db_builder.py] and of the data paths of
    [streamlit-dashboard.py], with the properties of the specification
    stated over it.

    Conventions.
    - Python exceptions are values of [exn]; a call that may raise returns
      [result A].
    - A pandas frame is the list of its rows in frame order; a row keeps
      the index label it got when the frame was built, because
      [sort_values] reorders rows without relabelling them and
      [idxmax]/[loc] go through labels.
    - A SQLite table is the list of its rows in insertion order.
    - [pd.NA] in the [chapter] column is [None]. *)

From Stdlib Require Import List ZArith String Ascii Bool Lia Arith.
From Stdlib Require Import Sorting.Sorted Sorting.Permutation.
From Stdlib Require Import Decimal DecimalString DecimalZ DecimalPos.
Import ListNotations.

Local Open Scope string_scope.
Local Open Scope Z_scope.

(** ** Exceptions and fallible computations *)

Inductive exn : Type :=
| ValueError        (* idxmax of an empty selection; a frame built from a scalar *)
| KeyError          (* a missing column or dict key *)
| TypeError         (* subscripting or iterating a value of the wrong type *)
| IndexError        (* a list index out of range *)
| JSONDecodeError   (* json.loads on text that is not JSON *)
| DatabaseError     (* sqlite3 / pandas.read_sql failures *)
| APIError.         (* the AI service call fails *)

Inductive result (A : Type) : Type :=
| Ok (a : A)
| Raise (e : exn).
Arguments Ok {A} a.
Arguments Raise {A} e.

Definition bind {A B : Type} (m : result A) (k : A -> result B) : result B :=
  match m with
  | Ok a => k a
  | Raise e => Raise e
  end.

Notation "x <- m ;; k" := (bind m (fun x => k))
  (at level 61, m at next level, right associativity).

Definition is_ok {A : Type} (m : result A) : bool :=
  match m with Ok _ => true | Raise _ => false end.

(** ** Strings *)

(** [sep.join(parts)]. *)
Fixpoint join (sep : string) (parts : list string) : string :=
  match parts with
  | [] => ""
  | [s] => s
  | s :: rest => s ++ sep ++ join sep rest
  end.

(** [s.split(c)] for a one-character separator: never empty, the last
    piece is what follows the last separator. *)
Fixpoint split_on (c : ascii) (s : string) : list string :=
  match s with
  | EmptyString => [""]
  | String a s' =>
      if Ascii.eqb a c then "" :: split_on c s'
      else match split_on c s' with
           | [] => [String a ""]
           | piece :: pieces => String a piece :: pieces
           end
  end.

Fixpoint has_char (c : ascii) (s : string) : bool :=
  match s with
  | EmptyString => false
  | String a s' => Ascii.eqb a c || has_char c s'
  end.

(** ** Table of contents and the heading frame ([enrich_with_toc]) *)

(** One entry as [toc.get_headings] yields it. *)
Record heading : Type := mkHeading {
  h_title : string;
  h_page  : Z;
  h_level : Z
}.

(** A row of the [headings] frame: the entry, its index label and the
    [chapter] column. *)
Record hrow : Type := mkHrow {
  r_label   : nat;
  r_title   : string;
  r_page    : Z;
  r_level   : Z;
  r_chapter : option string
}.

(** A row of the [exercises] table / frame. *)
Record exercise : Type := mkExercise {
  reference  : string;
  chapter    : option string;
  page       : Z;
  number     : Z;
  text       : string;
  has_figure : bool;
  tags       : string;
  created_on : string
}.

Module Toc.

(** [pd.DataFrame(headings)]: rows labelled 0, 1, ... in list order; the
    [chapter] column does not exist yet and is created as NA below. *)
Fixpoint label_rows (next : nat) (hs : list heading) : list hrow :=
  match hs with
  | [] => []
  | h :: hs' =>
      mkHrow next (h_title h) (h_page h) (h_level h) None
      :: label_rows (S next) hs'
  end.

Definition DataFrame (hs : list heading) : list hrow := label_rows 0 hs.

(** [sort_values(by='page')]: rows in ascending page order, labels kept.
    Rows with equal pages stay in their frame order (what numpy's sort
    does on short arrays and what [kind='stable'] guarantees); the
    theorems on section lookup below are stated on the sorted frame and
    do not depend on how equal pages are arranged. *)
Fixpoint insert_by_page (r : hrow) (rows : list hrow) : list hrow :=
  match rows with
  | [] => [r]
  | r' :: rest =>
      if r_page r' <? r_page r then r' :: insert_by_page r rest
      else r :: rows
  end.

Definition sort_values (rows : list hrow) : list hrow :=
  fold_right insert_by_page [] rows.

Definition with_chapter (r : hrow) (c : option string) : hrow :=
  mkHrow (r_label r) (r_title r) (r_page r) (r_level r) c.

(** [headings['chapter'] = pd.NA]. *)
Definition init_chapter (rows : list hrow) : list hrow :=
  map (fun r => with_chapter r None) rows.

(** [headings.loc[headings.level == 0, 'chapter'] =
     headings.loc[headings.level == 0, 'title'].values]. *)
Definition set_level0_chapter (rows : list hrow) : list hrow :=
  map (fun r => if r_level r =? 0 then with_chapter r (Some (r_title r)) else r)
      rows.

(** [headings.chapter.ffill()]: an NA cell takes the last value above it
    that is not NA; leading NA cells stay NA. *)
Fixpoint ffill (last : option string) (rows : list hrow) : list hrow :=
  match rows with
  | [] => []
  | r :: rest =>
      match r_chapter r with
      | Some c => r :: ffill (Some c) rest
      | None => with_chapter r last :: ffill last rest
      end
  end.

(** Lines 210-214 on a non-empty heading list. *)
Definition chapter_frame (hs : list heading) : list hrow :=
  ffill None (set_level0_chapter (init_chapter (sort_values (DataFrame hs)))).

(** Lines 206-214.  [toc.get_headings] is not part of the sources; its
    result for levels 0 and 1 is the argument [get_headings].  A frame
    built from an empty list has no [page] column, and [sort_values]
    raises [KeyError]. *)
Definition headings_frame (get_headings : Z -> list heading)
  : result (list hrow) :=
  let headings := (get_headings 0 ++ get_headings 1)%list in
  match headings with
  | [] => Raise KeyError
  | _ => Ok (chapter_frame headings)
  end.

(** The columns of a row other than [chapter]. *)
Definition entry (r : hrow) : nat * string * Z * Z :=
  (r_label r, r_title r, r_page r, r_level r).

(** [headings.page[headings.page < P]]. *)
Definition pages_below (frame : list hrow) (P : Z) : list hrow :=
  filter (fun r => r_page r <? P) frame.

(** [Series.idxmax()]: the label of the first row holding the maximum;
    [ValueError] on an empty selection. *)
Fixpoint first_max (best : hrow) (rows : list hrow) : hrow :=
  match rows with
  | [] => best
  | r :: rest =>
      if r_page best <? r_page r then first_max r rest else first_max best rest
  end.

Definition idxmax (sel : list hrow) : result nat :=
  match sel with
  | [] => Raise ValueError
  | r :: rest => Ok (r_label (first_max r rest))
  end.

(** [headings.loc[label]] for a label that names one row. *)
Definition loc (frame : list hrow) (label : nat) : result hrow :=
  match find (fun r => Nat.eqb (r_label r) label) frame with
  | Some r => Ok r
  | None => Raise KeyError
  end.

(** The tie-break in the words of the specification: among the rows
    with the greatest page below [P], the last one of the frame. *)
Fixpoint last_max (best : hrow) (rows : list hrow) : hrow :=
  match rows with
  | [] => best
  | r :: rest =>
      if r_page best <=? r_page r then last_max r rest else last_max best rest
  end.

Definition spec_last_section_for (frame : list hrow) (P : Z) : option hrow :=
  match pages_below frame P with
  | [] => None
  | r :: rest => Some (last_max r rest)
  end.

(** The row whose [chapter] an exercise on page [P] receives: the first
    row of the frame among those with the greatest page below [P]. *)
Definition nearest_first (frame : list hrow) (P : Z) (r : hrow) : Prop :=
  exists pre post,
    frame = (pre ++ r :: post)%list /\
    r_page r < P /\
    (forall r', In r' frame -> r_page r' < P -> r_page r' <= r_page r) /\
    (forall r', In r' pre -> r_page r' <> r_page r).

(** Line 216. *)
Definition section_for (frame : list hrow) (P : Z) : result hrow :=
  label <- idxmax (pages_below frame P) ;;
  loc frame label.

Definition option_string_eqb (a b : option string) : bool :=
  match a, b with
  | Some x, Some y => String.eqb x y
  | _, _ => false       (* a comparison with NA is False *)
  end.

(** [headings[headings.chapter == c].title.values]. *)
Definition titles_of_chapter (frame : list hrow) (c : option string)
  : list string :=
  map r_title (filter (fun r => option_string_eqb (r_chapter r) c) frame).

Definition with_chapter_tags (e : exercise) (c : option string) (t : string)
  : exercise :=
  mkExercise (reference e) c (page e) (number e) (text e) (has_figure e)
             t (created_on e).

(** Body of the loop, lines 216-220, for one exercise row. *)
Definition enrich_row (frame : list hrow) (e : exercise) : result exercise :=
  section <- section_for frame (page e) ;;
  let chapter_content := join "," (titles_of_chapter frame (r_chapter section)) in
  Ok (with_chapter_tags e (r_chapter section)
        (tags e ++ "," ++ chapter_content)).

Fixpoint enrich_rows (frame : list hrow) (exercises : list exercise)
  : result (list exercise) :=
  match exercises with
  | [] => Ok []
  | e :: rest =>
      e' <- enrich_row frame e ;;
      rest' <- enrich_rows frame rest ;;
      Ok (e' :: rest')
  end.

(** [enrich_with_toc]: the frame is built first, then every exercise row
    is rewritten in place; an exception leaves the caller without a
    result. *)
Definition enrich_with_toc (get_headings : Z -> list heading)
                           (exercises : list exercise)
  : result (list exercise) :=
  frame <- headings_frame get_headings ;;
  enrich_rows frame exercises.

(** The title of the last level-0 row of [rows], if there is one. *)
Definition last_level0_title (rows : list hrow) : option string :=
  match filter (fun r => r_level r =? 0) (List.rev rows) with
  | r0 :: _ => Some (r_title r0)
  | [] => None
  end.

(** The table-of-contents entry a row was made from. *)
Definition heading_of_row (r : hrow) : heading :=
  mkHeading (r_title r) (r_page r) (r_level r).

End Toc.

(** ** SQLite's [LIKE] *)

Module Sql.

Definition lower (c : ascii) : ascii :=
  let n := nat_of_ascii c in
  if (Nat.leb 65 n && Nat.leb n 90)%bool then ascii_of_nat (n + 32) else c.

(** [s LIKE pat] without an escape character: [%] stands for any run of
    characters, [_] for one character, and letters match without regard
    to ASCII case. *)
Fixpoint like (pat s : string) : bool :=
  match pat with
  | EmptyString =>
      match s with EmptyString => true | String _ _ => false end
  | String c pat' =>
      if Ascii.eqb c "%" then
        (fix star (s : string) : bool :=
           like pat' s
           || match s with
              | EmptyString => false
              | String _ s' => star s'
              end) s
      else
        match s with
        | EmptyString => false
        | String d s' =>
            (if Ascii.eqb c "_" then true else Ascii.eqb (lower c) (lower d))
            && like pat' s'
        end
  end.

(** A value spliced between single quotes into the text of a statement
    ends the literal at its first apostrophe. *)
Fixpoint has_apostrophe (s : string) : bool :=
  match s with
  | EmptyString => false
  | String c s' => Ascii.eqb c "'" || has_apostrophe s'
  end.

Fixpoint lower_string (s : string) : string :=
  match s with
  | EmptyString => EmptyString
  | String c s' => String (lower c) (lower_string s')
  end.

End Sql.

(** ** The store *)

Record attempt : Type := mkAttempt {
  a_reference         : string;
  a_page              : Z;
  a_number            : Z;
  solution            : string;
  is_solution_correct : bool;
  solution_feedback   : string;
  attempted_on        : string
}.

Record database : Type := mkDatabase {
  exercises_table : list exercise;
  attempts_table  : list attempt
}.

Module Store.

(** A row can be bound to the [INSERT] only if none of its cells is
    [pd.NA]: sqlite3 has no adapter for it. *)
Definition bindable (e : exercise) : bool :=
  match chapter e with Some _ => true | None => false end.

(** [save_exercises]: one [executemany] and one commit; when a row cannot
    be bound the exception leaves the [with] block and the rows inserted
    before it are rolled back. *)
Definition save_exercises (rows : list exercise) (db : database)
  : result database :=
  if forallb bindable rows
  then Ok (mkDatabase (exercises_table db ++ rows) (attempts_table db))
  else Raise DatabaseError.

Definition insert_attempt (a : attempt) (db : database) : database :=
  mkDatabase (exercises_table db) (attempts_table db ++ [a]).

Definition mem_Z (x : Z) (l : list Z) : bool := existsb (Z.eqb x) l.

(** [Series.unique()]: first occurrences, in order. *)
Fixpoint unique (seen l : list Z) : list Z :=
  match l with
  | [] => []
  | x :: rest =>
      if mem_Z x seen then unique seen rest else x :: unique (x :: seen) rest
  end.

(** [SELECT reference, page FROM exercises WHERE page IN (<pages>) AND
    reference LIKE '<reference>'], then [.page.unique()].  The statement
    is assembled by string interpolation: a reference holding an
    apostrophe breaks the literal and the statement is rejected (names
    crafted so that the remainder is again a valid statement are outside
    the model). *)
Definition existing_pages (db : database) (ref : string) (pages : list Z)
  : result (list Z) :=
  if Sql.has_apostrophe ref then Raise DatabaseError
  else Ok (unique []
         (map page
            (filter (fun e => mem_Z (page e) pages && Sql.like ref (reference e))
                    (exercises_table db)))).

End Store.

(** ** Python values used by the pipeline *)

Module Py.

(** [l[i]] on a list, negative indices counting from the end. *)
Definition index {A : Type} (l : list A) (i : Z) : result A :=
  let n := Z.of_nat (List.length l) in
  let j := if i <? 0 then i + n else i in
  if (0 <=? j) && (j <? n) then
    match nth_error l (Z.to_nat j) with
    | Some a => Ok a
    | None => Raise IndexError
    end
  else Raise IndexError.

(** [str(n)] and [int(s)] on decimal numerals.  [int] also accepts
    blanks, a plus sign and underscores, which no numeral printed by
    [str] or by the page scanner contains. *)
Definition str (z : Z) : string := NilZero.string_of_int (Z.to_int z).

Definition int (s : string) : result Z :=
  match NilZero.int_of_string s with
  | Some d => Ok (Z.of_int d)
  | None => Raise ValueError
  end.

(** [list(range(1, n + 1))]. *)
Definition range1 (n : nat) : list Z := map Z.of_nat (seq 1 n).

(** [os.path.basename(path)]. *)
Definition basename (path : string) : string := last (split_on "/" path) "".

End Py.

(** ** Documents, the page scanner and the AI service *)

(** One exercise as the extraction prompt asks for it. *)
Record raw_exercise : Type := mkRaw {
  raw_number     : Z;
  raw_text       : string;
  raw_has_figure : bool;
  raw_tags       : list string
}.

(** What comes back for one page.  A decoded reply is taken to be what the
    prompt asks for, an array of objects with the four fields. *)
Inductive page_reply : Type :=
| ServiceFailure                       (* [client.messages.create] raises *)
| NotJson                              (* [json.loads] raises *)
| Exercises (l : list raw_exercise).

(** What comes back for one grading request.  In a decoded object a key is
    present ([Some]) or absent, and a present value is taken to have the
    type the prompt asks for. *)
Record grading_object : Type := mkGrading {
  g_solution_text       : option string;
  g_is_solution_correct : option bool;
  g_feedback            : option string
}.

Inductive grading_reply : Type :=
| GradingServiceFailure
| GradingNotJson
| GradingNotAnObject                   (* an array, a string, a number, null *)
| GradingObject (o : grading_object).

Section Pipeline.

Variable image : Type.

(** The text line [l] matches [EXERCISE_MARKER] for [pdfgrep]. *)
Variable marker_in : string -> bool.

(** The AI service on a rendered page. *)
Variable reply_for : image -> page_reply.

Record pdf_page : Type := mkPage {
  rendered   : image;         (* its entry in [convert_from_path(file_path)] *)
  text_lines : list string    (* its text, line by line, as the scanner reads it *)
}.

Record document : Type := mkDocument {
  file_path : string;
  pdf_pages : list pdf_page;
  toc       : Z -> list heading   (* [toc.get_headings] on its table of contents *)
}.

(** [pdfgrep -n EXERCISE_MARKER file_path]: one output line per matching
    text line, prefixed with the number of its page and a colon, pages in
    document order starting at 1. *)
Fixpoint pdfgrep_from (n : Z) (pages : list pdf_page) : list string :=
  match pages with
  | [] => []
  | pg :: rest =>
      (map (fun l => (Py.str n ++ ":" ++ l)%string)
           (filter marker_in (text_lines pg))
       ++ pdfgrep_from (n + 1) rest)%list
  end.

Definition pdfgrep_n (doc : document) : list string :=
  pdfgrep_from 1 (pdf_pages doc).

Fixpoint map_result {A B : Type} (f : A -> result B) (l : list A)
  : result (list B) :=
  match l with
  | [] => Ok []
  | a :: rest =>
      b <- f a ;;
      bs <- map_result f rest ;;
      Ok (b :: bs)
  end.

(** [get_exercise_pages], on the scanner's output lines. *)
Definition pages_of_lines (stdout : list string) : result (list Z) :=
  map_result (fun x => Py.int (hd "" (split_on ":" x))) stdout.

Definition get_exercise_pages (doc : document) : result (list Z) :=
  pages_of_lines (pdfgrep_n doc).

(** [process_document], lines 279-282: the selector with its fallback. *)
Definition candidate_pages (doc : document) : result (list Z) :=
  pages <- get_exercise_pages doc ;;
  match pages with
  | [] => Ok (Py.range1 (List.length (pdf_pages doc)))
  | _ => Ok pages
  end.

(** The number of text lines of page [p] (counted from 1) that hold the
    marker; 0 for a page the document does not have. *)
Definition marker_lines_on (doc : document) (p : Z) : nat :=
  if 1 <=? p then
    match nth_error (pdf_pages doc) (Z.to_nat (p - 1)) with
    | Some pg => List.length (filter marker_in (text_lines pg))
    | None => 0%nat
    end
  else 0%nat.

(** The page numbers on the scanner's output lines. *)
Fixpoint match_pages_from (n : Z) (pages : list pdf_page) : list Z :=
  match pages with
  | [] => []
  | pg :: rest =>
      (repeat n (List.length (filter marker_in (text_lines pg)))
       ++ match_pages_from (n + 1) rest)%list
  end.

(** [extract_exercises]: only the decoding is guarded.  The source also
    takes [reference], which it does not use. *)
Definition extract_exercises (im : image) : result (list raw_exercise) :=
  match reply_for im with
  | ServiceFailure => Raise APIError
  | NotJson => Ok []
  | Exercises l => Ok l
  end.

(** [process_document], line 269. *)
Definition reference_of (path : string) : string :=
  join "." (removelast (split_on "." (Py.basename path))).

(** *** The ingestion run ([process_document]) *)

(** What a run leaves behind: the store, the pages whose image was sent
    to the AI service, in order, and the value of the loop (the number of
    rows stored) or the exception that ended it. *)
Record run : Type := mkRun {
  db_after   : database;
  pages_sent : list Z;
  outcome    : result nat
}.

Definition sent (p : Z) (r : run) : run :=
  mkRun (db_after r) (p :: pages_sent r) (outcome r).

Definition page_imgs (doc : document) : list image :=
  map rendered (pdf_pages doc).

(** Lines 317-322 and 326 for the [k]-th record of a page: [chapter] is
    set to the empty string, [page], [reference] and [created_on] are
    stamped, and the tag list is joined with commas.  [now k] is the
    clock as this record reads it. *)
Definition stamp (now : nat -> string) (ref : string) (p : Z) (k : nat)
                 (r : raw_exercise) : exercise :=
  mkExercise ref (Some "") p (raw_number r) (raw_text r) (raw_has_figure r)
             (join "," (raw_tags r)) (now k).

Fixpoint stamp_all (now : nat -> string) (ref : string) (p : Z) (k : nat)
                   (l : list raw_exercise) : list exercise :=
  match l with
  | [] => []
  | r :: rest => stamp now ref p k r :: stamp_all now ref p (S k) rest
  end.

(** The loop of lines 312-331.  [i] counts the pages visited so far in
    this run and [now i k] is the clock when the [k]-th record of the
    [i]-th visited page is stamped; [num] is [num_exercises]. *)
Fixpoint process_pages (now : nat -> nat -> string) (doc : document)
                       (ref : string) (i : nat) (pages : list Z)
                       (db : database) (num : nat) : run :=
  match pages with
  | [] => mkRun db [] (Ok num)
  | p :: rest =>
      match Py.index (page_imgs doc) (p - 1) with
      | Raise e => mkRun db [] (Raise e)
      | Ok im =>
          sent p
            match extract_exercises im with
            | Raise e => mkRun db [] (Raise e)
            | Ok exercises =>
                match stamp_all (now i) ref p 0 exercises with
                | [] => process_pages now doc ref (S i) rest db num
                | ex_df =>
                    match Toc.enrich_with_toc (toc doc) ex_df with
                    | Raise e => mkRun db [] (Raise e)
                    | Ok enriched =>
                        match Store.save_exercises enriched db with
                        | Raise e => mkRun db [] (Raise e)
                        | Ok db' =>
                            process_pages now doc ref (S i) rest db'
                              (num + List.length enriched)
                        end
                    end
                end
            end
      end
  end.

(** Lines 285-295: the candidate pages with no row yet under the
    reference. *)
Definition pending_pages (doc : document) (db : database)
  : result (list Z) :=
  pages <- candidate_pages doc ;;
  existing <- Store.existing_pages db (reference_of (file_path doc)) pages ;;
  Ok (filter (fun x => negb (Store.mem_Z x existing)) pages).

(** What [process_document] leaves behind, and its value: [None] is
    Python's [None], returned when nothing is pending and when an
    exception is caught. *)
Record ingestion : Type := mkIngestion {
  store    : database;
  sent_to_ai : list Z;
  returned : option nat
}.

Definition process_document (now : nat -> nat -> string) (doc : document)
                            (db : database) : ingestion :=
  let ref := reference_of (file_path doc) in
  match pending_pages doc db with
  | Raise _ => mkIngestion db [] None
  | Ok [] => mkIngestion db [] None
  | Ok pages =>
      let r := process_pages now doc ref 0 pages db 0 in
      mkIngestion (db_after r) (pages_sent r)
        match outcome r with Ok n => Some n | Raise _ => None end
  end.

(** *** Views of the loop used in the proofs *)

(** The rows the body of the loop stores for page [p] when it is the
    [i]-th page visited: none when the page yields no record, or the
    exception that leaves the loop. *)
Definition page_rows (now : nat -> nat -> string) (doc : document)
                     (ref : string) (i : nat) (p : Z)
  : result (list exercise) :=
  im <- Py.index (page_imgs doc) (p - 1) ;;
  exercises <- extract_exercises im ;;
  match stamp_all (now i) ref p 0 exercises with
  | [] => Ok []
  | ex_df =>
      enriched <- Toc.enrich_with_toc (toc doc) ex_df ;;
      if forallb Store.bindable enriched then Ok enriched
      else Raise DatabaseError
  end.

(** What visiting a page amounts to; it depends on the document and on
    the AI service only. *)
Inductive page_kind : Type :=
| Skips      (* no record: [continue] *)
| Stores     (* a non-empty batch is inserted *)
| Fails.     (* an exception leaves the loop *)

Definition page_kind_of (doc : document) (p : Z) : page_kind :=
  match Py.index (page_imgs doc) (p - 1) with
  | Raise _ => Fails
  | Ok im =>
      match extract_exercises im with
      | Raise _ => Fails
      | Ok [] => Skips
      | Ok (_ :: _) =>
          match (frame <- Toc.headings_frame (toc doc) ;;
                 Toc.section_for frame p) with
          | Raise _ => Fails
          | Ok section =>
              match r_chapter section with
              | Some _ => Stores
              | None => Fails
              end
          end
      end
  end.

(** The store holds a row for page [p] under a reference that [ref]
    matches as a [LIKE] pattern. *)
Definition has_row (db : database) (ref : string) (p : Z) : bool :=
  existsb (fun e => (page e =? p) && Sql.like ref (reference e))
          (exercises_table db).

Definition add_rows (db : database) (rows : list exercise) : database :=
  mkDatabase (exercises_table db ++ rows) (attempts_table db).

End Pipeline.

Arguments mkPage {image} rendered text_lines.
Arguments rendered {image} p.
Arguments text_lines {image} p.
Arguments mkDocument {image} file_path pdf_pages toc.
Arguments file_path {image} d.
Arguments pdf_pages {image} d.
Arguments toc {image} d _.
Arguments pdfgrep_from {image} marker_in n pages.
Arguments pdfgrep_n {image} marker_in doc.
Arguments get_exercise_pages {image} marker_in doc.
Arguments candidate_pages {image} marker_in doc.
Arguments marker_lines_on {image} marker_in doc p.
Arguments match_pages_from {image} marker_in n pages.
Arguments extract_exercises {image} reply_for im.
Arguments page_imgs {image} doc.
Arguments process_pages {image} reply_for now doc ref i pages db num.
Arguments pending_pages {image} marker_in doc db.
Arguments process_document {image} marker_in reply_for now doc db.
Arguments page_rows {image} reply_for now doc ref i p.
Arguments page_kind_of {image} reply_for doc p.

(** ** Grading ([extract_solution] and the upload handler) *)

Module Grader.

Definition field {A : Type} (v : option A) : result A :=
  match v with
  | Some a => Ok a
  | None => Raise KeyError
  end.

(** [extract_solution]: nothing is guarded; the three subscripts are
    evaluated left to right. *)
Definition extract_solution (reply : grading_reply)
  : result (string * bool * string) :=
  match reply with
  | GradingServiceFailure => Raise APIError
  | GradingNotJson => Raise JSONDecodeError
  | GradingNotAnObject => Raise TypeError
  | GradingObject o =>
      solution_text <- field (g_solution_text o) ;;
      is_correct <- field (g_is_solution_correct o) ;;
      feedback <- field (g_feedback o) ;;
      Ok (solution_text, is_correct, feedback)
  end.

(** What the page shows after "Process Solution". *)
Inductive shown : Type :=
| Success (solution_text : string) (is_correct : bool) (feedback : string)
| Error (e : exn).

(** [solutions_page], lines 194-236, for the selected exercise
    [(ref, pg, num)] on [current_date]. *)
Definition process_solution (reply : grading_reply)
                            (ref : string) (pg num : Z)
                            (current_date : string) (db : database)
  : database * shown :=
  match extract_solution reply with
  | Raise e => (db, Error e)
  | Ok (solution_text, is_correct, feedback) =>
      (Store.insert_attempt
         (mkAttempt ref pg num solution_text is_correct feedback current_date)
         db,
       Success solution_text is_correct feedback)
  end.

End Grader.

(** ** The exercise query ([get_exercises]) *)

Module Query.

Definition key : Type := (string * Z * Z)%type.

Definition key_eqb (a b : key) : bool :=
  let '(r1, p1, n1) := a in
  let '(r2, p2, n2) := b in
  String.eqb r1 r2 && (p1 =? p2) && (n1 =? n2).

Definition exercise_key (e : exercise) : key :=
  (reference e, page e, number e).

Definition attempt_key (a : attempt) : key :=
  (a_reference a, a_page a, a_number a).

(** The attempts joined to the rows of a group. *)
Definition joined (db : database) (k : key) : list attempt :=
  filter (fun a => key_eqb (attempt_key a) k) (attempts_table db).

Fixpoint distinct (seen l : list string) : list string :=
  match l with
  | [] => []
  | x :: rest =>
      if existsb (String.eqb x) seen then distinct seen rest
      else x :: distinct (x :: seen) rest
  end.

(** [COUNT(DISTINCT a.attempted_on)]. *)
Definition attempt_count (atts : list attempt) : nat :=
  List.length (distinct [] (map attempted_on atts)).

(** [MAX(a.is_solution_correct)]: NULL over no attempt, else 1 when some
    attempt is correct and 0 when none is. *)
Definition is_solved (atts : list attempt) : option Z :=
  match atts with
  | [] => None
  | _ => Some (fold_right Z.max 0 (map (fun a => Z.b2z (is_solution_correct a)) atts))
  end.

(** A row of the result: the columns of [e.*] and the two aggregates. *)
Record result_row : Type := mkRow {
  row_exercise      : exercise;
  row_attempt_count : nat;
  row_is_solved     : option Z
}.

(** [GROUP BY e.reference, e.page, e.number]: one group per key.  The
    columns of [e.*] are those of one row of the group and the order of
    the groups is left open by SQL; the first row of each group stands
    for it here, groups in the order of their first rows. *)
Fixpoint group_heads (seen : list key) (rows : list exercise) : list exercise :=
  match rows with
  | [] => []
  | e :: rest =>
      if existsb (key_eqb (exercise_key e)) seen then group_heads seen rest
      else e :: group_heads (exercise_key e :: seen) rest
  end.

Definition sql_eq (v : option Z) (n : Z) : bool :=
  match v with
  | Some x => x =? n
  | None => false         (* NULL = n is not true *)
  end.

Definition mem_string (x : string) (l : list string) : bool :=
  existsb (String.eqb x) l.

Definition tags_column (r : result_row) : string := tags (row_exercise r).

(** The conjuncts of the [HAVING] clause, lines 37-61. *)
Definition having (tags references attempt_status : list string)
                  (r : result_row) : bool :=
  (match tags with
   | [] => true
   | _ => existsb (fun tag => Sql.like ("%" ++ tag ++ "%") (tags_column r))
                  tags
   end)
  && (match references with
      | [] => true
      | _ => existsb (fun ref => String.eqb (reference (row_exercise r)) ref)
                     references
      end)
  && (if mem_string "not_attempted" attempt_status
      then Nat.eqb (row_attempt_count r) 0 else true)
  && (if mem_string "attempted" attempt_status
      then Nat.ltb 0 (row_attempt_count r) else true)
  && (if mem_string "correct" attempt_status
      then sql_eq (row_is_solved r) 1 else true)
  && (if mem_string "incorrect" attempt_status
      then sql_eq (row_is_solved r) 0 else true).

Definition get_exercises (db : database)
                         (tags references attempt_status : list string)
  : list result_row :=
  filter (having tags references attempt_status)
    (map (fun e =>
            let atts := joined db (exercise_key e) in
            mkRow e (attempt_count atts) (is_solved atts))
         (group_heads [] (exercises_table db))).

End Query.

(** ** The attempt history ([get_attempts]) and the solutions page *)

Module History.

(** [ORDER BY attempted_on DESC] on text: byte-wise comparison, the
    greatest date first.  Rows with equal dates are left in table order
    (SQL leaves their order open). *)
Fixpoint insert_desc (a : attempt) (l : list attempt) : list attempt :=
  match l with
  | [] => [a]
  | b :: rest =>
      if String.leb (attempted_on b) (attempted_on a) then a :: l
      else b :: insert_desc a rest
  end.

Definition order_by_attempted_on_desc (l : list attempt) : list attempt :=
  fold_right insert_desc [] l.

(** [a] may stand before [b] in a history. *)
Definition newer_first (a b : attempt) : Prop :=
  String.leb (attempted_on b) (attempted_on a) = true.

(** [get_attempts(conn, reference, page, number)]. *)
Definition get_attempts (db : database) (ref : string) (pg num : Z)
  : list attempt :=
  order_by_attempted_on_desc (Query.joined db (ref, pg, num)).

(** What the solutions page shows after "Process Solution". *)
Inductive page_outcome : Type :=
| NoExerciseSelected                   (* [st.error("No exercise selected")] *)
| ExerciseNotFound                     (* [st.error("Exercise not found")] *)
| Processed (s : Grader.shown).

(** [solutions_page] with files uploaded and the button pressed:
    [selected] is [st.session_state.selected_exercise] when it is set,
    [reply] the answer of the AI service to the grading request. *)
Definition solutions_page (selected : option Query.key)
                          (reply : grading_reply) (current_date : string)
                          (db : database) : database * page_outcome :=
  match selected with
  | None => (db, NoExerciseSelected)
  | Some (ref, pg, num) =>
      match filter (fun e => Query.key_eqb (Query.exercise_key e) (ref, pg, num))
                   (exercises_table db) with
      | [] => (db, ExerciseNotFound)
      | _ :: _ =>
          let '(db', s) :=
            Grader.process_solution reply ref pg num current_date db in
          (db', Processed s)
      end
  end.

(** Every attempt belongs to a stored exercise. *)
Definition attempts_have_exercises (db : database) : Prop :=
  forall a, In a (attempts_table db) ->
    exists e, In e (exercises_table db) /\
              Query.exercise_key e = Query.attempt_key a.

(** The status line of [display_exercise_panel]. *)
Inductive status : Type := NotAttempted | Solved | Unsolved.

Definition truthy (v : option Z) : bool :=
  match v with
  | Some z => negb (z =? 0)
  | None => false
  end.

Definition display_status (r : Query.result_row) : status :=
  if Nat.eqb (Query.row_attempt_count r) 0 then NotAttempted
  else if truthy (Query.row_is_solved r) then Solved
  else Unsolved.

End History.

(** ** The schema ([setup] and [reset]) *)

Module Schema.

(** The database file: each table is absent or holds its rows. *)
Record file : Type := mkFile {
  exercises_tbl : option (list exercise);
  attempts_tbl  : option (list attempt)
}.

(** [setup]: the two [CREATE TABLE] statements run in turn inside one
    [try]; the first that meets an existing table raises
    [OperationalError] and the rest is skipped.  A statement that ran
    stays in effect (data definition is not part of a transaction). *)
Definition setup (f : file) : file :=
  match exercises_tbl f with
  | Some _ => f
  | None =>
      match attempts_tbl f with
      | Some _ => mkFile (Some []) (attempts_tbl f)
      | None => mkFile (Some []) (Some [])
      end
  end.

(** [reset]: the two [DROP TABLE] statements, in the same way. *)
Definition reset (f : file) : file :=
  match exercises_tbl f with
  | None => f
  | Some _ => mkFile None None   (* with or without an [attempts] table *)
  end.

(** The tables as the rest of the program uses them, when both exist. *)
Definition open (f : file) : option database :=
  match exercises_tbl f, attempts_tbl f with
  | Some ex, Some att => Some (mkDatabase ex att)
  | _, _ => None
  end.

End Schema.

(** ** The sidebar lists ([get_all_references], [get_all_tags]) *)

Module Sidebar.

(** [sorted(l)] on strings: ascending, byte-wise (the order of code
    points on UTF-8 text). *)
Fixpoint insert_sorted (s : string) (l : list string) : list string :=
  match l with
  | [] => [s]
  | x :: rest =>
      if String.leb s x then s :: l else x :: insert_sorted s rest
  end.

Definition sorted (l : list string) : list string :=
  fold_right insert_sorted [] l.

Definition ascending (a b : string) : Prop := String.leb a b = true.

(** [get_all_references]: [SELECT DISTINCT reference], sorted. *)
Definition get_all_references (db : database) : list string :=
  sorted (Query.distinct [] (map reference (exercises_table db))).

Definition byte_is (c : ascii) (n : nat) : bool := Nat.eqb (nat_of_ascii c) n.

Definition byte_in (c : ascii) (lo hi : nat) : bool :=
  Nat.leb lo (nat_of_ascii c) && Nat.leb (nat_of_ascii c) hi.

(** The white space of [str.isspace] below U+0080: tab to carriage
    return, the four separators U+001C to U+001F, and the blank. *)
Definition ascii_space (c : ascii) : bool :=
  byte_in c 9 13 || byte_in c 28 32.

(** [s.lstrip()] on the UTF-8 bytes of [s].  Beyond ASCII, white space is
    U+0085, U+00A0, U+1680, U+2000 to U+200A, U+2028, U+2029, U+202F,
    U+205F and U+3000. *)
Fixpoint lstrip (s : string) : string :=
  match s with
  | EmptyString => EmptyString
  | String c rest =>
      if ascii_space c then lstrip rest
      else
        match rest with
        | EmptyString => s
        | String d rest1 =>
            if byte_is c 194 && (byte_is d 133 || byte_is d 160)
            then lstrip rest1
            else
              match rest1 with
              | EmptyString => s
              | String e rest2 =>
                  if (byte_is c 225 && byte_is d 154 && byte_is e 128)
                     || (byte_is c 226 && byte_is d 128
                         && (byte_in e 128 138 || byte_is e 168
                             || byte_is e 169 || byte_is e 175))
                     || (byte_is c 226 && byte_is d 129 && byte_is e 159)
                     || (byte_is c 227 && byte_is d 128 && byte_is e 128)
                  then lstrip rest2
                  else s
              end
        end
  end.

(** [s.rstrip()]: what is left when the longest suffix made of white
    space is removed. *)
Fixpoint rstrip (s : string) : string :=
  match s with
  | EmptyString => EmptyString
  | String c rest =>
      match lstrip s with
      | EmptyString => EmptyString
      | String _ _ => String c (rstrip rest)
      end
  end.

(** [s.strip()]. *)
Definition strip (s : string) : string := rstrip (lstrip s).

(** The tags of one [tags] field, lines 84-85. *)
Definition tags_of_field (tags_str : string) : list string :=
  match tags_str with
  | EmptyString => []
  | _ => map strip (split_on "," tags_str)
  end.

(** [get_all_tags]: the set of the stripped pieces of the distinct
    [tags] fields, sorted. *)
Definition get_all_tags (db : database) : list string :=
  sorted (Query.distinct []
            (flat_map tags_of_field
               (Query.distinct [] (map tags (exercises_table db))))).

End Sidebar.

(** ** Share links ([encode_exercise_params], [decode_exercise_params])

    A [str] is the string of its UTF-8 bytes. *)

Module Link.

Local Open Scope nat_scope.

Definition byte (c : ascii) : nat := nat_of_ascii c.

(** *** [urllib.parse.quote_plus] and [urlencode] *)

(** Letters, digits and [_.-~] are never quoted. *)
Definition always_safe (c : ascii) : bool :=
  let n := byte c in
  (Nat.leb 65 n && Nat.leb n 90) || (Nat.leb 97 n && Nat.leb n 122)
  || (Nat.leb 48 n && Nat.leb n 57)
  || Nat.eqb n 95 || Nat.eqb n 46 || Nat.eqb n 45 || Nat.eqb n 126.

Definition hex_digit (n : nat) : ascii :=
  match get n "0123456789ABCDEF" with
  | Some c => c
  | None => "0"%char
  end.

(** ['%{:02X}'.format(byte)]. *)
Definition percent (c : ascii) : string :=
  String "%" (String (hex_digit (byte c / 16))
                     (String (hex_digit (byte c mod 16)) "")).

(** [quote(s, safe=' ')]. *)
Fixpoint quote_keeping_space (s : string) : string :=
  match s with
  | EmptyString => EmptyString
  | String c rest =>
      (if always_safe c || Ascii.eqb c " " then String c "" else percent c)
      ++ quote_keeping_space rest
  end.

(** [s.replace(a, b)] for single characters. *)
Fixpoint replace (a b : ascii) (s : string) : string :=
  match s with
  | EmptyString => EmptyString
  | String c rest => String (if Ascii.eqb c a then b else c) (replace a b rest)
  end.

Definition quote_plus (s : string) : string :=
  replace " " "+" (quote_keeping_space s).

(** What [quote_plus] writes for one byte. *)
Definition chunk (c : ascii) : string :=
  replace " " "+"
    (if always_safe c || Ascii.eqb c " " then String c "" else percent c).

(** One field [name=value] of a query string. *)
Definition field (kv : string * string) : string :=
  quote_plus (fst kv) ++ "=" ++ quote_plus (snd kv).

(** [urlencode] of a dict of strings, in the order of its items. *)
Definition urlencode (params : list (string * string)) : string :=
  join "&" (map (fun kv => quote_plus (fst kv) ++ "=" ++ quote_plus (snd kv))
                params).

(** *** [base64.urlsafe_b64encode] *)

Definition b64_char (n : nat) : ascii :=
  match get n
    "ABCDEFGHIJKLMNOPQRSTUVWXYZabcdefghijklmnopqrstuvwxyz0123456789-_" with
  | Some c => c
  | None => "="%char
  end.

Fixpoint urlsafe_b64encode (bytes : string) : string :=
  match bytes with
  | EmptyString => EmptyString
  | String a EmptyString =>
      String (b64_char (byte a / 4))
        (String (b64_char (byte a mod 4 * 16)) "==")
  | String a (String b EmptyString) =>
      String (b64_char (byte a / 4))
        (String (b64_char (byte a mod 4 * 16 + byte b / 16))
           (String (b64_char (byte b mod 16 * 4)) "="))
  | String a (String b (String c rest)) =>
      String (b64_char (byte a / 4))
        (String (b64_char (byte a mod 4 * 16 + byte b / 16))
           (String (b64_char (byte b mod 16 * 4 + byte c / 64))
              (String (b64_char (byte c mod 64))
                 (urlsafe_b64encode rest))))
  end.

(** [encode_exercise_params]. *)
Definition encode_exercise_params (ref : string) (pg num : Z) : string :=
  urlsafe_b64encode
    (urlencode [("ref", ref); ("page", Py.str pg); ("num", Py.str num)]).

(** *** [base64.urlsafe_b64decode] *)

(** The value of a character of either alphabet ([-] and [_] are first
    translated to [+] and [/]). *)
Definition b64_value (c : ascii) : option nat :=
  let n := byte c in
  if Nat.leb 65 n && Nat.leb n 90 then Some (n - 65)
  else if Nat.leb 97 n && Nat.leb n 122 then Some (n - 71)
  else if Nat.leb 48 n && Nat.leb n 57 then Some (n + 4)
  else if Nat.eqb n 43 || Nat.eqb n 45 then Some 62
  else if Nat.eqb n 47 || Nat.eqb n 95 then Some 63
  else None.

(** [binascii.a2b_base64] without [strict_mode]: characters outside the
    alphabet are skipped, padding that completes a group ends the
    decoding, and an unfinished group at the end is an error.
    [quad_pos] is the position in the group of four, [leftchar] the bits
    left over, [pads] the padding seen since the last digit. *)
Fixpoint a2b_base64 (s : string) (quad_pos leftchar pads : nat)
  : result string :=
  match s with
  | EmptyString =>
      if Nat.eqb quad_pos 0 then Ok EmptyString else Raise ValueError
  | String ch rest =>
      if Ascii.eqb ch "=" then
        if Nat.leb 2 quad_pos then
          if Nat.leb 4 (quad_pos + S pads) then Ok EmptyString
          else a2b_base64 rest quad_pos leftchar (S pads)
        else a2b_base64 rest quad_pos leftchar pads
      else
        match b64_value ch with
        | None => a2b_base64 rest quad_pos leftchar pads
        | Some v =>
            match quad_pos with
            | 0%nat => a2b_base64 rest 1 v 0
            | 1%nat =>
                out <- a2b_base64 rest 2 (v mod 16) 0 ;;
                Ok (String (ascii_of_nat (leftchar * 4 + v / 16)) out)
            | 2%nat =>
                out <- a2b_base64 rest 3 (v mod 4) 0 ;;
                Ok (String (ascii_of_nat (leftchar * 16 + v / 4)) out)
            | _ =>
                out <- a2b_base64 rest 0 0 0 ;;
                Ok (String (ascii_of_nat (leftchar * 64 + v)) out)
            end
        end
  end.

Definition urlsafe_b64decode (s : string) : result string :=
  a2b_base64 s 0 0 0.

(** *** [bytes.decode()] *)

Definition cont (c : ascii) : bool := Nat.leb 128 (byte c) && Nat.leb (byte c) 191.

(** Well-formed UTF-8. *)
Fixpoint utf8_valid (s : string) : bool :=
  match s with
  | EmptyString => true
  | String a rest =>
      let n := byte a in
      if Nat.leb n 127 then utf8_valid rest
      else
        match rest with
        | EmptyString => false
        | String b rest1 =>
            if Nat.leb 194 n && Nat.leb n 223 then cont b && utf8_valid rest1
            else
              match rest1 with
              | EmptyString => false
              | String c rest2 =>
                  if Nat.leb 224 n && Nat.leb n 239 then
                    cont b && cont c
                    && (if Nat.eqb n 224 then Nat.leb 160 (byte b) else true)
                    && (if Nat.eqb n 237 then Nat.leb (byte b) 159 else true)
                    && utf8_valid rest2
                  else
                    match rest2 with
                    | EmptyString => false
                    | String d rest3 =>
                        Nat.leb 240 n && Nat.leb n 244
                        && cont b && cont c && cont d
                        && (if Nat.eqb n 240 then Nat.leb 144 (byte b) else true)
                        && (if Nat.eqb n 244 then Nat.leb (byte b) 143 else true)
                        && utf8_valid rest3
                    end
              end
        end
  end.

(** [b.decode()]: the same bytes as a [str], or [UnicodeDecodeError]. *)
Definition decode_utf8 (b : string) : result string :=
  if utf8_valid b then Ok b else Raise ValueError.

Fixpoint is_ascii (s : string) : bool :=
  match s with
  | EmptyString => true
  | String c rest => Nat.leb (byte c) 127 && is_ascii rest
  end.

(** *** [urllib.parse.parse_qs] *)

Definition hex_value (c : ascii) : option nat :=
  let n := byte c in
  if Nat.leb 48 n && Nat.leb n 57 then Some (n - 48)
  else if Nat.leb 65 n && Nat.leb n 70 then Some (n - 55)
  else if Nat.leb 97 n && Nat.leb n 102 then Some (n - 87)
  else None.

(** [unquote_to_bytes]: [%] and two hexadecimal digits give a byte; any
    other [%] stays. *)
Fixpoint percent_decode (s : string) : string :=
  match s with
  | EmptyString => EmptyString
  | String c rest =>
      if Ascii.eqb c "%" then
        match rest with
        | String h (String l rest2) =>
            match hex_value h, hex_value l with
            | Some x, Some y =>
                String (ascii_of_nat (x * 16 + y)) (percent_decode rest2)
            | _, _ => String c (percent_decode rest)
            end
        | _ => String c (percent_decode rest)
        end
      else String c (percent_decode rest)
  end.

(** [s.split('=', 1)] when [s] holds an equals sign. *)
Fixpoint split_once (s : string) : option (string * string) :=
  match s with
  | EmptyString => None
  | String c rest =>
      if Ascii.eqb c "=" then Some (EmptyString, rest)
      else match split_once rest with
           | Some (name, value) => Some (String c name, value)
           | None => None
           end
  end.

Fixpoint lookup (name : string) (pairs : list (string * string))
  : result string :=
  match pairs with
  | [] => Raise KeyError
  | (n, v) :: rest => if String.eqb n name then Ok v else lookup name rest
  end.

Section Decoding.

(** [unquote] decodes the bytes of the escapes as UTF-8 with
    [errors='replace']; [unquote_replaced s] is its result when they are
    not well-formed UTF-8. *)
Variable unquote_replaced : string -> string.

(** [int] on text that is not a plain decimal numeral (blanks,
    underscores, a plus sign, other digits). *)
Variable int_of_other : string -> result Z.

Definition unquote (s : string) : string :=
  let b := percent_decode s in
  if utf8_valid b then b else unquote_replaced s.

Definition int (s : string) : result Z :=
  match NilZero.int_of_string s with
  | Some d => Ok (Z.of_int d)
  | None => int_of_other s
  end.

(** [parse_qsl]: fields between [&]; a field without [=] or with an
    empty value is dropped. *)
Definition parse_qsl (qs : string) : list (string * string) :=
  flat_map
    (fun name_value =>
       match split_once name_value with
       | None => []
       | Some (name, value) =>
           match value with
           | EmptyString => []
           | _ => [(unquote (replace "+" " " name),
                    unquote (replace "+" " " value))]
           end
       end)
    (split_on "&" qs).

(** [decode_exercise_params]: [None] on any exception. *)
Definition decode_exercise_params (encoded : string) : option (string * Z * Z) :=
  match (bytes <- urlsafe_b64decode encoded ;;
         decoded <- decode_utf8 bytes ;;
         let params := parse_qsl decoded in
         ref <- lookup "ref" params ;;
         pg <- bind (lookup "page" params) int ;;
         num <- bind (lookup "num" params) int ;;
         Ok (ref, pg, num)) with
  | Ok v => Some v
  | Raise _ => None
  end.

End Decoding.

End Link.

(** ** Further views of the pipeline *)

Section PipelineViews.

Variable image : Type.
Variable reply_for : image -> page_reply.

(** The number of exercises the AI service finds on page [p]; 0 when the
    page has no image or the reply cannot be used. *)
Definition records_on (doc : document image) (p : Z) : nat :=
  match Py.index (page_imgs doc) (p - 1) with
  | Ok im =>
      match extract_exercises reply_for im with
      | Ok l => List.length l
      | Raise _ => 0%nat
      end
  | Raise _ => 0%nat
  end.

(** A run continued by another: the pages sent are those of both. *)
Definition after_pages (first : list Z) (r : run) : run :=
  mkRun (db_after r) (first ++ pages_sent r) (outcome r).

End PipelineViews.

Arguments records_on {image} reply_for doc p.

(** ** Sample data *)

Module Sample.

(** The table of contents of the specification's example. *)
Definition toc_ch1_ch2 (lvl : Z) : list heading :=
  if lvl =? 0 then [mkHeading "Ch1" 1 0; mkHeading "Ch2" 10 0]
  else if lvl =? 1 then [mkHeading "1.2" 5 1]
  else [].

(** Two top-level headings anchored on the same page. *)
Definition toc_same_page (lvl : Z) : list heading :=
  if lvl =? 0 then [mkHeading "A" 3 0; mkHeading "B" 3 0] else [].

Definition exercise_on (p : Z) : exercise :=
  mkExercise "book" (Some "") p 1 "Show that ..." false "sets,counting" "".

(** A matcher for the marker: the line holds "esx10". *)
Definition marker_in (l : string) : bool :=
  match String.index 0 "esx10" l with
  | Some _ => true
  | None => false
  end.

(** Rendered pages are named by a number.  The service finds two
    exercises on image 2, answers image 3 with text that is not JSON and
    finds nothing elsewhere. *)
Definition reply_for (im : nat) : page_reply :=
  match im with
  | 2%nat => Exercises [mkRaw 1 "How many ..." false ["counting"];
                        mkRaw 2 "Show that ..." true ["sets"; "counting"]]
  | 3%nat => NotJson
  | _ => Exercises []
  end.

(** Two marked exercises on page 2, one on page 3. *)
Definition book : document nat :=
  mkDocument "/library/Ross - 2014 - A first course in probability.pdf"
    [mkPage 1%nat ["Chapter 1"; "Combinatorial analysis"];
     mkPage 2%nat ["(esx10) 1. How many ..."; "(esx10) 2. Show that ..."];
     mkPage 3%nat ["(esx10) 3. Prove ..."];
     mkPage 4%nat ["Summary"]]
    toc_ch1_ch2.

(** One marked exercise line, on page 2. *)
Definition leaflet : document nat :=
  mkDocument "leaflet.pdf"
    [mkPage 1%nat ["Chapter 1"];
     mkPage 2%nat ["(esx10) 1. How many ..."]]
    toc_ch1_ch2.

(** No marker, and nothing found on any page. *)
Definition notes : document nat :=
  mkDocument "notes.pdf" [mkPage 1%nat ["Chapter 1"]] toc_ch1_ch2.

(** A table of contents whose first heading stands on page 5. *)
Definition toc_late (lvl : Z) : list heading :=
  if lvl =? 0 then [mkHeading "Ch1" 5 0] else [].

(** No marker; exercises on page 2, before the first heading. *)
Definition draft : document nat :=
  mkDocument "draft.pdf"
    [mkPage 4%nat ["Preface"];
     mkPage 2%nat ["1. How many ..."];
     mkPage 4%nat ["Notes"]]
    toc_late.

Definition empty_db : database := mkDatabase [] [].

(** Three exercises of one page: the first attempted wrongly and then
    correctly, the second attempted wrongly only, the third never. *)
Definition graded_db : database :=
  mkDatabase
    [mkExercise "book" (Some "Ch1") 2 1 "How many ..." false "counting,Ch1" "";
     mkExercise "book" (Some "Ch1") 2 2 "Show that ..." true "sets,Ch1" "";
     mkExercise "book" (Some "Ch1") 2 3 "Prove ..." false "sets,Ch1" ""]
    [mkAttempt "book" 2 1 "n!" false "The order matters here." "2024-01-01";
     mkAttempt "book" 2 1 "n^2" true "Correct." "2024-03-01";
     mkAttempt "book" 2 2 "A = B" false "One inclusion is missing." "2024-02-01"].

Definition clock (i k : nat) : string := "04/11/2026 10:00:00".

End Sample.

(** * Properties *)

(** ** Fallible computations *)

Lemma bind_ok_inv {A B : Type} (m : result A) (k : A -> result B) (b : B) :
  bind m k = Ok b -> exists a, m = Ok a /\ k a = Ok b.
Proof.
  destruct m as [a|e]; simpl; intros H; [eauto | discriminate].
Qed.

Lemma bind_raise {A B : Type} (m : result A) (k : A -> result B) (e : exn) :
  m = Raise e -> bind m k = Raise e.
Proof. intros ->; reflexivity. Qed.

(** ** The heading frame *)

Section FrameFacts.

Import Toc.

(** Every stage after the construction of the frame touches the
    [chapter] column only. *)
Lemma entry_with_chapter r c : entry (with_chapter r c) = entry r.
Proof. reflexivity. Qed.

Lemma init_chapter_entries rows :
  map entry (init_chapter rows) = map entry rows.
Proof.
  unfold init_chapter. rewrite map_map. apply map_ext. reflexivity.
Qed.

Lemma set_level0_chapter_entries rows :
  map entry (set_level0_chapter rows) = map entry rows.
Proof.
  unfold set_level0_chapter. rewrite map_map. apply map_ext.
  intros r. destruct (r_level r =? 0); reflexivity.
Qed.

Lemma ffill_entries rows : forall last,
  map entry (ffill last rows) = map entry rows.
Proof.
  induction rows as [|r rows IH]; intros last; simpl; [reflexivity|].
  destruct (r_chapter r); simpl; rewrite IH; reflexivity.
Qed.

Lemma insert_by_page_perm r rows :
  Permutation (insert_by_page r rows) (r :: rows).
Proof.
  induction rows as [|r' rows IH]; simpl; [reflexivity|].
  destruct (r_page r' <? r_page r).
  - rewrite IH. apply perm_swap.
  - reflexivity.
Qed.

Lemma sort_values_perm rows : Permutation (sort_values rows) rows.
Proof.
  induction rows as [|r rows IH]; simpl; [reflexivity|].
  rewrite insert_by_page_perm. constructor. exact IH.
Qed.

Lemma label_rows_labels hs : forall n,
  map r_label (label_rows n hs) = seq n (List.length hs).
Proof.
  induction hs as [|h hs IH]; intros n; simpl; [reflexivity|].
  rewrite IH. reflexivity.
Qed.

Lemma label_rows_pages hs : forall n,
  map r_page (label_rows n hs) = map h_page hs.
Proof.
  induction hs as [|h hs IH]; intros n; simpl; [reflexivity|].
  rewrite IH. reflexivity.
Qed.

Lemma headings_frame_ok gh frame :
  headings_frame gh = Ok frame ->
  (gh 0 ++ gh 1)%list <> [] /\ frame = chapter_frame (gh 0 ++ gh 1)%list.
Proof.
  unfold headings_frame, chapter_frame.
  destruct (gh 0 ++ gh 1)%list as [|h hs]; intros H; [discriminate|].
  injection H as <-. split; [discriminate | reflexivity].
Qed.

Lemma headings_frame_nonempty gh :
  (gh 0 ++ gh 1)%list <> [] ->
  headings_frame gh = Ok (chapter_frame (gh 0 ++ gh 1)%list).
Proof.
  unfold headings_frame, chapter_frame.
  destruct (gh 0 ++ gh 1)%list as [|h hs]; intros H; [congruence | reflexivity].
Qed.

Lemma chapter_frame_entries hs :
  Permutation (map entry (chapter_frame hs)) (map entry (DataFrame hs)).
Proof.
  unfold chapter_frame.
  rewrite ffill_entries, set_level0_chapter_entries, init_chapter_entries.
  apply Permutation_map, sort_values_perm.
Qed.

Lemma map_entry_label rows :
  map r_label rows = map (fun x => fst (fst (fst x))) (map entry rows).
Proof. rewrite map_map. reflexivity. Qed.

Lemma map_entry_page rows :
  map r_page rows = map (fun x => snd (fst x)) (map entry rows).
Proof. rewrite map_map. reflexivity. Qed.

(** Labels stay pairwise distinct, so [loc] names one row. *)
Lemma chapter_frame_labels_nodup hs :
  NoDup (map r_label (chapter_frame hs)).
Proof.
  rewrite map_entry_label.
  eapply Permutation_NoDup.
  - apply Permutation_map. symmetry. apply chapter_frame_entries.
  - rewrite <- map_entry_label. unfold DataFrame.
    rewrite label_rows_labels. apply seq_NoDup.
Qed.

(** The pages of the frame are the pages of the headings. *)
Lemma chapter_frame_pages hs :
  Permutation (map r_page (chapter_frame hs)) (map h_page hs).
Proof.
  rewrite map_entry_page.
  rewrite (Permutation_map _ (chapter_frame_entries hs)).
  rewrite <- map_entry_page. unfold DataFrame.
  rewrite label_rows_pages. reflexivity.
Qed.

Lemma chapter_frame_page_in hs r :
  In r (chapter_frame hs) -> exists h, In h hs /\ h_page h = r_page r.
Proof.
  intros Hin.
  assert (Hp : In (r_page r) (map h_page hs)).
  { eapply Permutation_in; [apply chapter_frame_pages|].
    apply in_map. exact Hin. }
  apply in_map_iff in Hp. destruct Hp as [h [Hh Hin']]. eauto.
Qed.

Lemma heading_page_in_frame hs h :
  In h hs -> exists r, In r (chapter_frame hs) /\ r_page r = h_page h.
Proof.
  intros Hin.
  assert (Hp : In (h_page h) (map r_page (chapter_frame hs))).
  { eapply Permutation_in; [symmetry; apply chapter_frame_pages|].
    apply in_map. exact Hin. }
  apply in_map_iff in Hp. destruct Hp as [r [Hr Hin']]. eauto.
Qed.

End FrameFacts.

(** ** Section lookup ([idxmax] and [loc]) *)

Section SectionLookup.

Import Toc.

Lemma first_max_in rows : forall best,
  In (first_max best rows) (best :: rows).
Proof.
  induction rows as [|r rows IH]; intros best; simpl; [auto|].
  destruct (r_page best <? r_page r).
  - right. apply IH.
  - destruct (IH best) as [H|H]; [left; exact H | right; right; exact H].
Qed.

Lemma first_max_upper rows : forall best r,
  In r (best :: rows) -> r_page r <= r_page (first_max best rows).
Proof.
  induction rows as [|r0 rows IH]; intros best r Hin; simpl.
  - destruct Hin as [<-|[]]. lia.
  - destruct (Z.ltb_spec (r_page best) (r_page r0)) as [Hlt|Hge].
    + destruct Hin as [<-|Hin].
      * specialize (IH r0 r0 (or_introl eq_refl)). lia.
      * apply IH. exact Hin.
    + destruct Hin as [<-|[<-|Hin]].
      * apply IH. left; reflexivity.
      * specialize (IH best best (or_introl eq_refl)). lia.
      * apply IH. right; exact Hin.
Qed.

(** [idxmax] takes the first of the rows that hold the maximum. *)
Lemma first_max_first rows : forall best,
  exists pre post,
    best :: rows = (pre ++ first_max best rows :: post)%list /\
    forall r, In r pre -> r_page r < r_page (first_max best rows).
Proof.
  induction rows as [|r0 rows IH]; intros best; simpl.
  - exists [], []. split; [reflexivity | intros r []].
  - destruct (Z.ltb_spec (r_page best) (r_page r0)) as [Hlt|Hge].
    + destruct (IH r0) as [pre [post [Heq Hpre]]].
      exists (best :: pre), post. split.
      * simpl. rewrite <- Heq. reflexivity.
      * intros r [<-|Hin]; [|apply Hpre; exact Hin].
        pose proof (first_max_upper rows r0 r0 (or_introl eq_refl)). lia.
    + destruct (IH best) as [pre [post [Heq Hpre]]].
      destruct pre as [|b pre'].
      * simpl in Heq. injection Heq as Hb Hrows.
        exists [], (r0 :: rows). split; [|intros r []].
        simpl. rewrite <- Hb. reflexivity.
      * simpl in Heq. injection Heq as Hb Hrows. subst b.
        exists (best :: r0 :: pre'), post. split.
        -- simpl. do 2 f_equal. exact Hrows.
        -- intros r [<-|[<-|Hin]].
           ++ apply Hpre. left; reflexivity.
           ++ specialize (Hpre best (or_introl eq_refl)). lia.
           ++ apply Hpre. right; exact Hin.
Qed.

Lemma filter_split {A : Type} (f : A -> bool) (l : list A) :
  forall fpre x fpost,
    filter f l = (fpre ++ x :: fpost)%list ->
    exists pre post,
      l = (pre ++ x :: post)%list /\ filter f pre = fpre /\ filter f post = fpost.
Proof.
  induction l as [|a l IH]; intros fpre x fpost H; simpl in H.
  - destruct fpre; discriminate.
  - destruct (f a) eqn:Hfa.
    + destruct fpre as [|b fpre']; simpl in H.
      * injection H as Hax Hrest. subst x.
        exists [], l. simpl. auto.
      * injection H as Hab Hrest. subst b.
        destruct (IH _ _ _ Hrest) as [pre [post [Hl [Hp Hq]]]].
        exists (a :: pre), post. simpl. rewrite Hfa, Hp, <- Hl. auto.
    + destruct (IH _ _ _ H) as [pre [post [Hl [Hp Hq]]]].
      exists (a :: pre), post. simpl. rewrite Hfa, <- Hl. auto.
Qed.

Lemma loc_unique frame r :
  NoDup (map r_label frame) -> In r frame -> loc frame (r_label r) = Ok r.
Proof.
  unfold loc. induction frame as [|a frame IH]; intros Hnd Hin; [destruct Hin|].
  simpl. inversion Hnd as [|? ? Hnotin Hnd']; subst.
  destruct (Nat.eqb_spec (r_label a) (r_label r)) as [Heq|Hne].
  - destruct Hin as [->|Hin]; [reflexivity|].
    exfalso. apply Hnotin. rewrite Heq. apply in_map. exact Hin.
  - destruct Hin as [->|Hin]; [congruence|]. apply IH; assumption.
Qed.

(** Which row line 216 selects, on any frame with distinct labels. *)
Lemma section_for_spec frame P :
  NoDup (map r_label frame) ->
  pages_below frame P <> [] ->
  exists pre r post,
    frame = (pre ++ r :: post)%list /\
    r_page r < P /\
    (forall r', In r' frame -> r_page r' < P -> r_page r' <= r_page r) /\
    (forall r', In r' pre -> r_page r' < P -> r_page r' < r_page r) /\
    section_for frame P = Ok r.
Proof.
  intros Hnd Hne. unfold section_for, idxmax.
  destruct (pages_below frame P) as [|b sel] eqn:Hsel; [congruence|].
  destruct (first_max_first sel b) as [fpre [fpost [Heq Hfirst]]].
  set (m := first_max b sel) in *.
  rewrite Heq in Hsel. unfold pages_below in Hsel.
  destruct (filter_split _ _ _ _ _ Hsel) as [pre [post [Hframe [Hpre Hpost]]]].
  assert (Hm : In m (filter (fun r => r_page r <? P) frame)).
  { rewrite Hsel. apply in_or_app. right. left. reflexivity. }
  apply filter_In in Hm. destruct Hm as [Hmin Hmlt].
  apply Z.ltb_lt in Hmlt.
  exists pre, m, post. repeat split; try assumption.
  - intros r' Hin Hlt.
    assert (Hr' : In r' (b :: sel)).
    { rewrite Heq, <- Hsel. apply filter_In. split; [exact Hin|].
      apply Z.ltb_lt. exact Hlt. }
    apply (first_max_upper sel b r' Hr').
  - intros r' Hin Hlt. apply Hfirst. rewrite <- Hpre.
    apply filter_In. split; [exact Hin | apply Z.ltb_lt; exact Hlt].
  - simpl. apply loc_unique; assumption.
Qed.

Lemma section_for_none frame P :
  pages_below frame P = [] -> section_for frame P = Raise ValueError.
Proof.
  intros H. unfold section_for. rewrite H. reflexivity.
Qed.

Lemma enrich_rows_forall2 frame exs : forall exs',
  enrich_rows frame exs = Ok exs' <->
  Forall2 (fun e e' => enrich_row frame e = Ok e') exs exs'.
Proof.
  induction exs as [|e exs IH]; intros exs'; simpl.
  - split.
    + intros H. injection H as <-. constructor.
    + intros H. inversion H. reflexivity.
  - split.
    + intros H. apply bind_ok_inv in H. destruct H as [e' [He H]].
      apply bind_ok_inv in H. destruct H as [rest' [Hrest H]].
      injection H as <-. constructor; [exact He|]. apply IH. exact Hrest.
    + intros H. inversion H as [|? e' ? rest' He Hrest]; subst.
      rewrite He. simpl. apply IH in Hrest. rewrite Hrest. reflexivity.
Qed.

End SectionLookup.

(** ** The enricher *)

Section Enricher.

Import Toc.

Lemma filter_nil {A : Type} (f : A -> bool) (l : list A) :
  (forall x, In x l -> f x = false) -> filter f l = [].
Proof.
  induction l as [|a l IH]; intros H; simpl; [reflexivity|].
  rewrite (H a (or_introl eq_refl)). apply IH.
  intros x Hx. apply H. right. exact Hx.
Qed.

(** C1 (the code departs from it).  When no heading lies on a page
    before the exercise's, [enrich_with_toc] does not return: it raises
    [ValueError] from [idxmax] on the empty selection, and [KeyError]
    from [sort_values] when the table of contents has no heading at all. *)
Theorem enrich_without_preceding_heading_raises
  (gh : Z -> list heading) (e : exercise) (rest : list exercise) :
  (forall h, In h (gh 0 ++ gh 1)%list -> page e <= h_page h) ->
  enrich_with_toc gh (e :: rest) =
  Raise (match (gh 0 ++ gh 1)%list with [] => KeyError | _ => ValueError end).
Proof.
  intros Hnone. unfold enrich_with_toc.
  destruct (gh 0 ++ gh 1)%list as [|h hs] eqn:Hhs.
  - unfold headings_frame. rewrite Hhs. reflexivity.
  - rewrite headings_frame_nonempty by (rewrite Hhs; discriminate).
    rewrite Hhs. simpl. unfold enrich_row.
    rewrite section_for_none; [reflexivity|].
    apply filter_nil. intros r Hr.
    destruct (chapter_frame_page_in _ _ Hr) as [h' [Hin Hpage]].
    apply Z.ltb_ge. rewrite <- Hpage. apply Hnone. exact Hin.
Qed.

Lemma enrich_without_preceding_heading_raises_witness :
  enrich_with_toc Sample.toc_ch1_ch2 [Sample.exercise_on 1] = Raise ValueError.
Proof.
  apply (enrich_without_preceding_heading_raises
           Sample.toc_ch1_ch2 (Sample.exercise_on 1) []).
  simpl. intros h [<-|[<-|[<-|[]]]]; simpl; lia.
Defined.

Lemma enrich_row_nearest frame e :
  NoDup (map r_label frame) ->
  pages_below frame (page e) <> [] ->
  exists r e',
    nearest_first frame (page e) r /\
    enrich_row frame e = Ok e' /\
    chapter e' = r_chapter r.
Proof.
  intros Hnd Hne.
  destruct (section_for_spec frame (page e) Hnd Hne)
    as [pre [r [post [Hframe [Hlt [Hmax [Hfirst Hsec]]]]]]].
  exists r. eexists. split; [|split].
  - exists pre, post. repeat split; try assumption.
    intros r' Hin Heq. specialize (Hfirst r' Hin). lia.
  - unfold enrich_row. rewrite Hsec. simpl. reflexivity.
  - reflexivity.
Qed.

(** C6 (amended).  With a non-empty heading list and, for every
    exercise, a heading on a page strictly before the exercise's,
    [enrich_with_toc] returns, and each exercise receives the [chapter]
    of the heading with the greatest page strictly below its own; when
    several headings share that page, the first of them in the sorted
    frame is taken. *)
Theorem chapter_is_first_nearest_heading
  (gh : Z -> list heading) (exs : list exercise) :
  (gh 0 ++ gh 1)%list <> [] ->
  (forall e, In e exs ->
     exists h, In h (gh 0 ++ gh 1)%list /\ h_page h < page e) ->
  exists frame exs',
    headings_frame gh = Ok frame /\
    enrich_with_toc gh exs = Ok exs' /\
    Forall2 (fun e e' =>
               exists r, nearest_first frame (page e) r /\
                         chapter e' = r_chapter r)
            exs exs'.
Proof.
  intros Hne Hall.
  exists (chapter_frame (gh 0 ++ gh 1)%list).
  unfold enrich_with_toc. rewrite (headings_frame_nonempty gh Hne). simpl.
  set (frame := chapter_frame (gh 0 ++ gh 1)%list).
  assert (Hnd : NoDup (map r_label frame)) by apply chapter_frame_labels_nodup.
  induction exs as [|e exs IH].
  - exists []. repeat split. constructor.
  - destruct IH as [exs' [_ [Hrows Hf2]]].
    { intros e0 He0. apply Hall. right. exact He0. }
    destruct (Hall e (or_introl eq_refl)) as [h [Hin Hlt]].
    assert (Hsel : pages_below frame (page e) <> []).
    { destruct (heading_page_in_frame _ _ Hin) as [r [Hr Hpage]].
      intros Hnil.
      assert (Hr' : In r (pages_below frame (page e))).
      { apply filter_In. split; [exact Hr|]. apply Z.ltb_lt. lia. }
      rewrite Hnil in Hr'. destruct Hr'. }
    destruct (enrich_row_nearest frame e Hnd Hsel) as [r [e' [Hnear [Hrow Hch]]]].
    exists (e' :: exs'). split; [reflexivity|]. split.
    + simpl. rewrite Hrow. simpl. rewrite Hrows. reflexivity.
    + constructor; [|exact Hf2]. exists r. split; assumption.
Qed.

Lemma chapter_is_first_nearest_heading_witness :
  exists frame exs',
    headings_frame Sample.toc_ch1_ch2 = Ok frame /\
    enrich_with_toc Sample.toc_ch1_ch2 [Sample.exercise_on 7] = Ok exs' /\
    Forall2 (fun e e' =>
               exists r, nearest_first frame (page e) r /\
                         chapter e' = r_chapter r)
            [Sample.exercise_on 7] exs'.
Proof.
  apply (chapter_is_first_nearest_heading
           Sample.toc_ch1_ch2 [Sample.exercise_on 7]).
  - simpl. discriminate.
  - intros e [<-|[]]. exists (mkHeading "Ch1" 1 0). split.
    + simpl. left. reflexivity.
    + simpl. lia.
Defined.

(** The example of the specification: page 7 resolves to "Ch1". *)
Example chapter_of_page_7 :
  option_map (map chapter)
    (match enrich_with_toc Sample.toc_ch1_ch2 [Sample.exercise_on 7] with
     | Ok l => Some l | Raise _ => None end)
  = Some [Some "Ch1"].
Proof. reflexivity. Qed.

(** C6 as worded fails.  With the headings "A" and "B" both on page 3
    and an exercise on page 7, the last heading of the sorted frame with
    the greatest page below 7 is "B", and the exercise receives "A". *)
Lemma last_heading_does_not_win :
  exists frame r_last e',
    headings_frame Sample.toc_same_page = Ok frame /\
    spec_last_section_for frame 7 = Some r_last /\
    enrich_with_toc Sample.toc_same_page [Sample.exercise_on 7] = Ok [e'] /\
    r_chapter r_last = Some "B" /\
    chapter e' = Some "A" /\
    chapter e' <> r_chapter r_last.
Proof.
  eexists. eexists. eexists.
  split; [reflexivity|]. split; [reflexivity|]. split; [reflexivity|].
  split; [reflexivity|]. split; [reflexivity|]. simpl. discriminate.
Qed.



End Enricher.

(** ** [LIKE] and the query for stored pages *)

Section StoredPages.

Lemma like_percent pat s :
  Sql.like (String "%" pat) s =
  Sql.like pat s
  || match s with
     | EmptyString => false
     | String _ s' => Sql.like (String "%" pat) s'
     end.
Proof. destruct s; reflexivity. Qed.

(** A reference matches itself as a pattern, whatever characters it holds. *)
Lemma like_refl s : Sql.like s s = true.
Proof.
  induction s as [|c s IH]; [reflexivity|].
  destruct (Ascii.eqb c "%") eqn:E.
  - apply Ascii.eqb_eq in E. subst c.
    rewrite like_percent. apply orb_true_iff. right.
    rewrite like_percent. rewrite IH. reflexivity.
  - simpl. rewrite E. rewrite IH, andb_true_r.
    destruct (Ascii.eqb c "_"); [reflexivity | apply Ascii.eqb_refl].
Qed.

Lemma mem_Z_In x l : Store.mem_Z x l = true <-> In x l.
Proof.
  unfold Store.mem_Z. rewrite existsb_exists. split.
  - intros [y [Hy Heq]]. apply Z.eqb_eq in Heq. subst. exact Hy.
  - intros H. exists x. split; [exact H | apply Z.eqb_refl].
Qed.

Lemma unique_In l : forall seen x,
  In x (Store.unique seen l) <-> In x l /\ ~ In x seen.
Proof.
  induction l as [|a l IH]; intros seen x; simpl.
  - tauto.
  - destruct (Store.mem_Z a seen) eqn:Hmem.
    + apply mem_Z_In in Hmem. rewrite IH. split.
      * tauto.
      * intros [[->|H] Hn]; [contradiction | tauto].
    + assert (Hn : ~ In a seen).
      { intros Hin. apply mem_Z_In in Hin. congruence. }
      simpl. rewrite IH. simpl. split.
      * intros [->|[H1 H2]]; [tauto|]. split; [tauto|]. tauto.
      * intros [[->|H] Hs]; [tauto|].
        destruct (Z.eq_dec a x) as [->|Hne]; [tauto|].
        right. split; [exact H|]. intros [Heq|Hin]; tauto.
Qed.

Lemma has_row_spec db ref p :
  has_row db ref p = true <->
  exists e, In e (exercises_table db) /\ page e = p /\
            Sql.like ref (reference e) = true.
Proof.
  unfold has_row. rewrite existsb_exists. split.
  - intros [e [Hin H]]. apply andb_true_iff in H. destruct H as [Hp Hl].
    apply Z.eqb_eq in Hp. eauto.
  - intros [e [Hin [Hp Hl]]]. exists e. split; [exact Hin|].
    apply andb_true_iff. split; [apply Z.eqb_eq; exact Hp | exact Hl].
Qed.

(** On the candidate pages, the query answers [has_row]. *)
Lemma existing_pages_has_row db ref pages existing x :
  Store.existing_pages db ref pages = Ok existing ->
  In x pages ->
  Store.mem_Z x existing = has_row db ref x.
Proof.
  unfold Store.existing_pages.
  destruct (Sql.has_apostrophe ref); [discriminate|].
  intros H Hx. injection H as <-.
  apply eq_true_iff_eq. rewrite mem_Z_In, unique_In, has_row_spec.
  rewrite in_map_iff. split.
  - intros [[e [Hp Hin]] _]. apply filter_In in Hin.
    destruct Hin as [Hin Hf]. apply andb_true_iff in Hf.
    exists e. tauto.
  - intros [e [Hin [Hp Hl]]]. split; [|intros []].
    exists e. split; [exact Hp|]. apply filter_In. split; [exact Hin|].
    apply andb_true_iff. split; [|exact Hl].
    apply mem_Z_In. rewrite Hp. exact Hx.
Qed.

Lemma has_row_add_rows db rows ref p :
  has_row (add_rows db rows) ref p =
  has_row db ref p
  || existsb (fun e => (page e =? p) && Sql.like ref (reference e)) rows.
Proof. unfold has_row, add_rows. simpl. apply existsb_app. Qed.

End StoredPages.

(** ** One page of the loop *)

Section PageFacts.

Variable image : Type.
Variable reply_for : image -> page_reply.

Lemma stamp_all_nil now ref p l : forall k,
  stamp_all now ref p k l = [] <-> l = [].
Proof.
  destruct l; intros k; simpl; split; intros H; congruence.
Qed.

Lemma stamp_all_rows now ref p l : forall k,
  Forall (fun e => page e = p /\ reference e = ref) (stamp_all now ref p k l).
Proof.
  induction l as [|r l IH]; intros k; simpl; constructor; auto.
Qed.

(** On a batch whose rows all stand on page [p], the section is looked
    up for [p] and every row gets its chapter. *)
Lemma enrich_rows_same_page frame p exs :
  Forall (fun e => page e = p /\ True) exs ->
  exs <> [] ->
  Toc.enrich_rows frame exs =
  section <- Toc.section_for frame p ;;
  Ok (map (fun e =>
             Toc.with_chapter_tags e (r_chapter section)
               (tags e ++ "," ++
                join "," (Toc.titles_of_chapter frame (r_chapter section))))
          exs).
Proof.
  induction exs as [|e exs IH]; intros Hall Hne; [congruence|].
  inversion Hall as [|? ? [Hp _] Hall']; subst.
  simpl. unfold Toc.enrich_row at 1.
  destruct (Toc.section_for frame (page e)) as [section|x] eqn:Hsec;
    simpl; [|reflexivity].
  destruct exs as [|e2 exs]; [reflexivity|].
  rewrite (IH Hall') by discriminate. simpl. reflexivity.
Qed.

Lemma page_rows_kind now (doc : document image) ref i p :
  match page_kind_of reply_for doc p with
  | Skips => page_rows reply_for now doc ref i p = Ok []
  | Stores =>
      exists rows,
        page_rows reply_for now doc ref i p = Ok rows /\
        rows <> [] /\
        Forall (fun e => page e = p /\ reference e = ref) rows
  | Fails => exists x, page_rows reply_for now doc ref i p = Raise x
  end.
Proof.
  unfold page_kind_of, page_rows.
  destruct (Py.index (page_imgs doc) (p - 1)) as [im|x]; simpl; [|eauto].
  destruct (extract_exercises reply_for im) as [raws|x]; simpl; [|eauto].
  destruct raws as [|r raws]; [reflexivity|].
  assert (Hrows : Forall (fun e => page e = p /\ reference e = ref)
                          (stamp_all (now i) ref p 0 (r :: raws)))
    by apply stamp_all_rows.
  destruct (stamp_all (now i) ref p 0 (r :: raws)) as [|b batch] eqn:Hb;
    [simpl in Hb; discriminate|].
  unfold Toc.enrich_with_toc.
  destruct (Toc.headings_frame (toc doc)) as [frame|x]; cbn [bind]; [|eauto].
  rewrite (enrich_rows_same_page frame p (b :: batch)); [| |discriminate].
  2: { eapply Forall_impl; [|exact Hrows]. simpl. tauto. }
  destruct (Toc.section_for frame p) as [section|x]; simpl; [|eauto].
  destruct (r_chapter section) as [c|] eqn:Hc.
  - match goal with |- exists rows, (if ?t then _ else _) = _ /\ _ =>
      assert (Ht : t = true) end.
    { simpl. apply forallb_forall. intros e He.
      apply in_map_iff in He. destruct He as [e0 [<- _]]. reflexivity. }
    rewrite Ht. eexists. split; [reflexivity|]. split; [discriminate|].
    inversion Hrows as [|? ? [Hp Hr] Hrest]; subst.
    constructor; [simpl; auto|].
    apply Forall_forall. intros e He. apply in_map_iff in He.
    destruct He as [e0 [<- He0]]. simpl.
    rewrite Forall_forall in Hrest. apply Hrest. exact He0.
  - simpl. eauto.
Qed.

Lemma add_rows_nil db : add_rows db [] = db.
Proof. destruct db. unfold add_rows. simpl. rewrite app_nil_r. reflexivity. Qed.

Lemma add_rows_app db rows rows' :
  add_rows (add_rows db rows) rows' = add_rows db (rows ++ rows').
Proof. unfold add_rows. simpl. rewrite app_assoc. reflexivity. Qed.

(** The loop, one page at a time. *)
Lemma process_pages_step now (doc : document image) ref i p rest db num :
  process_pages reply_for now doc ref i (p :: rest) db num =
  match page_rows reply_for now doc ref i p with
  | Ok rows =>
      sent p (process_pages reply_for now doc ref (S i) rest
                (add_rows db rows) (num + List.length rows))
  | Raise x =>
      mkRun db
        (match Py.index (page_imgs doc) (p - 1) with
         | Ok _ => [p]
         | Raise _ => []
         end)
        (Raise x)
  end.
Proof.
  simpl. unfold page_rows.
  destruct (Py.index (page_imgs doc) (p - 1)) as [im|x]; simpl; [|reflexivity].
  destruct (extract_exercises reply_for im) as [raws|x]; simpl; [|reflexivity].
  destruct (stamp_all (now i) ref p 0 raws) as [|b batch] eqn:Hb; simpl.
  - rewrite add_rows_nil, Nat.add_0_r. reflexivity.
  - destruct (Toc.enrich_with_toc (toc doc) (b :: batch)) as [enriched|x];
      simpl; [|reflexivity].
    unfold Store.save_exercises.
    destruct (forallb Store.bindable enriched); reflexivity.
Qed.

End PageFacts.

(** ** The loop over the pending pages *)

Section LoopFacts.

Variable image : Type.
Variable reply_for : image -> page_reply.

(** How a run of the loop ends: the rows added to the store, the pages
    completed ([done]) and the pages never completed ([rest]), whose
    first page raised when the loop was left by an exception. *)
Lemma process_pages_trace now (doc : document image) ref :
  forall pages i db num,
    let r := process_pages reply_for now doc ref i pages db num in
    exists added done rest,
      db_after r = add_rows db added /\
      pages = (done ++ rest)%list /\
      (forall q, In q done ->
         page_kind_of reply_for doc q = Skips \/
         (page_kind_of reply_for doc q = Stores /\
          exists e, In e added /\ page e = q /\ reference e = ref)) /\
      Forall (fun e => reference e = ref /\ In (page e) done /\
                       page_kind_of reply_for doc (page e) = Stores) added /\
      match outcome r with
      | Ok n => rest = [] /\ n = (num + List.length added)%nat
      | Raise _ =>
          exists q rest', rest = q :: rest' /\
                          page_kind_of reply_for doc q = Fails
      end /\
      incl (pages_sent r) pages.
Proof.
  induction pages as [|p pages IH]; intros i db num r.
  - exists [], [], []. subst r. simpl.
    rewrite add_rows_nil, Nat.add_0_r.
    repeat split; try reflexivity; try (intros q []); try constructor.
  - subst r. rewrite process_pages_step.
    pose proof (page_rows_kind image reply_for now doc ref i p) as Hkind.
    destruct (page_kind_of reply_for doc p) eqn:Hk.
    + rewrite Hkind. rewrite add_rows_nil, Nat.add_0_r.
      destruct (IH (S i) db num)
        as [added [done [rest [Hdb [Hpages [Hdone [Hadded [Hout Hsent]]]]]]]].
      exists added, (p :: done), rest. simpl.
      split; [exact Hdb|]. split; [rewrite Hpages; reflexivity|].
      split; [|split; [|split]].
      * intros q [<-|Hq]; [left; exact Hk | apply Hdone; exact Hq].
      * eapply Forall_impl; [|exact Hadded]. simpl. intros e [H1 [H2 H3]].
        auto.
      * exact Hout.
      * intros q [<-|Hq]; [left; reflexivity | right; apply Hsent; exact Hq].
    + destruct Hkind as [rows [Hrows [Hne Hall]]]. rewrite Hrows.
      destruct (IH (S i) (add_rows db rows) (num + List.length rows)%nat)
        as [added [done [rest [Hdb [Hpages [Hdone [Hadded [Hout Hsent]]]]]]]].
      exists (rows ++ added)%list, (p :: done), rest. simpl.
      split; [rewrite Hdb; apply add_rows_app|].
      split; [rewrite Hpages; reflexivity|].
      split; [|split; [|split]].
      * intros q [<-|Hq].
        -- right. split; [exact Hk|].
           destruct rows as [|e0 rows]; [congruence|].
           inversion Hall as [|? ? [Hp Hr] _]; subst.
           exists e0. split; [left; reflexivity | auto].
        -- destruct (Hdone q Hq) as [Hs|[Hs [e [He Hpe]]]]; [left; exact Hs|].
           right. split; [exact Hs|]. exists e. split; [|exact Hpe].
           apply in_or_app. right. exact He.
      * apply Forall_app. split.
        -- eapply Forall_impl; [|exact Hall]. simpl. intros e [Hp Hr].
           subst. auto.
        -- eapply Forall_impl; [|exact Hadded]. simpl. intros e [H1 [H2 H3]].
           auto.
      * destruct (outcome _); [|exact Hout].
        destruct Hout as [-> ->]. split; [reflexivity|].
        rewrite length_app. lia.
      * intros q [<-|Hq]; [left; reflexivity | right; apply Hsent; exact Hq].
    + destruct Hkind as [x Hx]. rewrite Hx.
      exists [], [], (p :: pages). simpl. rewrite add_rows_nil.
      split; [reflexivity|]. split; [reflexivity|].
      split; [intros q []|]. split; [constructor|]. split; [eauto|].
      destruct (Py.index (page_imgs doc) (p - 1)).
      * intros q [<-|[]]. left. reflexivity.
      * intros q [].
Qed.

(** Pages that yield no record are passed over. *)
Lemma process_pages_skips now (doc : document image) ref :
  forall skipped tail i db num,
    Forall (fun q => page_kind_of reply_for doc q = Skips) skipped ->
    db_after (process_pages reply_for now doc ref i (skipped ++ tail) db num) =
    db_after (process_pages reply_for now doc ref
                (i + List.length skipped) tail db num) /\
    outcome (process_pages reply_for now doc ref i (skipped ++ tail) db num) =
    outcome (process_pages reply_for now doc ref
               (i + List.length skipped) tail db num).
Proof.
  induction skipped as [|p skipped IH]; intros tail i db num Hall.
  - simpl. rewrite Nat.add_0_r. auto.
  - inversion Hall as [|? ? Hp Hall']; subst.
    change ((p :: skipped) ++ tail)%list with (p :: (skipped ++ tail))%list.
    rewrite process_pages_step.
    pose proof (page_rows_kind image reply_for now doc ref i p) as Hkind.
    rewrite Hp in Hkind. rewrite Hkind.
    rewrite add_rows_nil, Nat.add_0_r. simpl.
    replace (i + S (List.length skipped))%nat
      with (S i + List.length skipped)%nat by lia.
    apply IH. exact Hall'.
Qed.

Lemma process_pages_fails now (doc : document image) ref i p rest db num :
  page_kind_of reply_for doc p = Fails ->
  db_after (process_pages reply_for now doc ref i (p :: rest) db num) = db /\
  exists x,
    outcome (process_pages reply_for now doc ref i (p :: rest) db num) = Raise x.
Proof.
  intros Hk. rewrite process_pages_step.
  pose proof (page_rows_kind image reply_for now doc ref i p) as Hkind.
  rewrite Hk in Hkind. destruct Hkind as [x Hx]. rewrite Hx. simpl. eauto.
Qed.

End LoopFacts.

(** ** Ingestion runs *)

Section IngestFacts.

Variable image : Type.
Variable marker_in : string -> bool.
Variable reply_for : image -> page_reply.


(** The pending pages are the candidates without a row in the store. *)
Lemma pending_pages_eq (doc : document image) db :
  pending_pages marker_in doc db =
  cand <- candidate_pages marker_in doc ;;
  if Sql.has_apostrophe (reference_of (file_path doc)) then Raise DatabaseError
  else Ok (filter (fun x => negb (has_row db (reference_of (file_path doc)) x))
                  cand).
Proof.
  unfold pending_pages.
  destruct (candidate_pages marker_in doc) as [cand|x]; simpl; [|reflexivity].
  destruct (Sql.has_apostrophe (reference_of (file_path doc))) eqn:Hap.
  - unfold Store.existing_pages. rewrite Hap. reflexivity.
  - destruct (Store.existing_pages db (reference_of (file_path doc)) cand)
      as [existing|x] eqn:He.
    + simpl. f_equal. apply filter_ext_in. intros x Hx. f_equal.
      eapply existing_pages_has_row; eassumption.
    + unfold Store.existing_pages in He. rewrite Hap in He. discriminate.
Qed.

Lemma filter_filter_sub {A : Type} (g1 g2 : A -> bool) (l : list A) :
  (forall x, g2 x = true -> g1 x = true) ->
  filter g2 (filter g1 l) = filter g2 l.
Proof.
  intros Hsub. induction l as [|a l IH]; simpl; [reflexivity|].
  destruct (g1 a) eqn:H1; simpl.
  - rewrite IH. reflexivity.
  - destruct (g2 a) eqn:H2; [|exact IH].
    apply Hsub in H2. congruence.
Qed.

Lemma added_rows_miss (doc : document image) added ref p :
  Forall (fun e => reference e = ref /\
                   page_kind_of reply_for doc (page e) = Stores) added ->
  page_kind_of reply_for doc p <> Stores ->
  existsb (fun e => (page e =? p) && Sql.like ref (reference e)) added = false.
Proof.
  intros Hall Hk. apply not_true_is_false. intros H.
  apply existsb_exists in H. destruct H as [e [He H]].
  apply andb_true_iff in H. destruct H as [Hp _]. apply Z.eqb_eq in Hp.
  rewrite Forall_forall in Hall. destruct (Hall e He) as [_ Hs].
  rewrite Hp in Hs. contradiction.
Qed.

(** Running the loop again on what the first run left pending adds
    nothing: pages that gave no record give none again, and the page
    that raised raises again before any later page is reached. *)
Lemma rerun_adds_nothing now1 now2 (doc : document image) ref pages db :
  (forall q, In q pages -> has_row db ref q = false) ->
  let r1 := process_pages reply_for now1 doc ref 0 pages db 0 in
  forall i num,
    db_after (process_pages reply_for now2 doc ref i
                (filter (fun x => negb (has_row (db_after r1) ref x)) pages)
                (db_after r1) num)
    = db_after r1.
Proof.
  intros Hfresh r1 i num.
  destruct (process_pages_trace image reply_for now1 doc ref pages 0%nat db 0%nat)
    as [added [done [rest [Hdb [Hpages [Hdone [Hadded [Hout _]]]]]]]].
  fold r1 in Hdb, Hout. rewrite Hdb.
  set (g2 := fun x => negb (has_row (add_rows db added) ref x)).
  assert (Hadded' : Forall (fun e => reference e = ref /\
                       page_kind_of reply_for doc (page e) = Stores) added).
  { eapply Forall_impl; [|exact Hadded]. simpl. tauto. }
  assert (Hskips : Forall (fun q => page_kind_of reply_for doc q = Skips)
                          (filter g2 done)).
  { apply Forall_forall. intros q Hq. apply filter_In in Hq.
    destruct Hq as [Hq Hg]. destruct (Hdone q Hq) as [Hs|[_ [e [He [Hp Hr]]]]];
      [exact Hs|].
    exfalso. unfold g2 in Hg. apply negb_true_iff in Hg.
    assert (Ht : has_row (add_rows db added) ref q = true).
    { apply has_row_spec. exists e. split; [|split; [exact Hp|]].
      - unfold add_rows. simpl. apply in_or_app. right. exact He.
      - rewrite Hr. apply like_refl. }
    congruence. }
  rewrite Hpages, filter_app.
  destruct (process_pages_skips image reply_for now2 doc ref
              (filter g2 done) (filter g2 rest) i (add_rows db added) num Hskips)
    as [Hskip _].
  rewrite Hskip. clear Hskip.
  destruct (outcome r1) as [n|x].
  - destruct Hout as [-> _]. reflexivity.
  - destruct Hout as [q [rest' [-> Hfail]]].
    assert (Hq : g2 q = true).
    { unfold g2. apply negb_true_iff. rewrite has_row_add_rows.
      rewrite Hfresh by (rewrite Hpages; apply in_or_app; right; left; reflexivity).
      simpl. apply (added_rows_miss doc); [exact Hadded'|].
      rewrite Hfail. discriminate. }
    simpl. rewrite Hq.
    apply (process_pages_fails image reply_for now2 doc ref). exact Hfail.
Qed.

Lemma ingest_nothing_pending now (doc : document image) db :
  (pending_pages marker_in doc db = Ok [] \/
   exists x, pending_pages marker_in doc db = Raise x) ->
  process_document marker_in reply_for now doc db = mkIngestion db [] None.
Proof.
  unfold process_document. intros [H|[x H]]; rewrite H; reflexivity.
Qed.

Lemma ingest_pending now (doc : document image) db p ps :
  pending_pages marker_in doc db = Ok (p :: ps) ->
  let r := process_pages reply_for now doc (reference_of (file_path doc))
             0 (p :: ps) db 0 in
  process_document marker_in reply_for now doc db =
  mkIngestion (db_after r) (pages_sent r)
    match outcome r with Ok n => Some n | Raise _ => None end.
Proof.
  unfold process_document. intros H. rewrite H. reflexivity.
Qed.

Lemma pending_pages_inv (doc : document image) db pages :
  pending_pages marker_in doc db = Ok pages ->
  exists cand,
    candidate_pages marker_in doc = Ok cand /\
    Sql.has_apostrophe (reference_of (file_path doc)) = false /\
    pages = filter (fun x => negb (has_row db (reference_of (file_path doc)) x))
                   cand.
Proof.
  rewrite pending_pages_eq.
  destruct (candidate_pages marker_in doc) as [cand|x]; simpl; [|discriminate].
  destruct (Sql.has_apostrophe (reference_of (file_path doc)));
    [discriminate|].
  intros H. injection H as <-. eauto.
Qed.

Lemma pending_pages_later (doc : document image) cand (db' : database) :
  candidate_pages marker_in doc = Ok cand ->
  Sql.has_apostrophe (reference_of (file_path doc)) = false ->
  pending_pages marker_in doc db' =
  Ok (filter (fun x => negb (has_row db' (reference_of (file_path doc)) x)) cand).
Proof.
  intros Hc Hap. rewrite pending_pages_eq, Hc. simpl. rewrite Hap. reflexivity.
Qed.


(** A page whose image is sent to the AI service has no row yet. *)
Lemma sent_pages_have_no_row now (doc : document image) db p :
  In p (sent_to_ai (process_document marker_in reply_for now doc db)) ->
  has_row db (reference_of (file_path doc)) p = false.
Proof.
  destruct (pending_pages marker_in doc db) as [[|q qs]|x] eqn:Hp.
  - rewrite ingest_nothing_pending by auto. intros [].
  - rewrite (ingest_pending now doc db q qs Hp). cbv zeta. cbn [sent_to_ai].
    intros Hin.
    destruct (process_pages_trace image reply_for now doc
                (reference_of (file_path doc)) (q :: qs) 0%nat db 0%nat)
      as [_ [_ [_ [_ [_ [_ [_ [_ Hincl]]]]]]]].
    apply Hincl in Hin.
    destruct (pending_pages_inv doc db _ Hp) as [cand [_ [_ Hpages]]].
    rewrite Hpages in Hin. apply filter_In in Hin. destruct Hin as [_ Hin].
    apply negb_true_iff in Hin. exact Hin.
  - rewrite ingest_nothing_pending by eauto. intros [].
Qed.


Lemma unparsable_page_skips (doc : document image) p im :
  Py.index (page_imgs doc) (p - 1) = Ok im ->
  reply_for im = NotJson ->
  page_kind_of reply_for doc p = Skips.
Proof.
  intros Hidx Hreply. unfold page_kind_of, extract_exercises.
  rewrite Hidx, Hreply. reflexivity.
Qed.

(** What a run adds to the store. *)
Lemma process_document_adds now (doc : document image) db :
  exists added,
    store (process_document marker_in reply_for now doc db) = add_rows db added /\
    Forall (fun e => reference e = reference_of (file_path doc) /\
                     page_kind_of reply_for doc (page e) = Stores) added /\
    forall n,
      returned (process_document marker_in reply_for now doc db) = Some n ->
      n = List.length added.
Proof.
  destruct (pending_pages marker_in doc db) as [[|q qs]|x] eqn:Hp.
  - rewrite ingest_nothing_pending by auto. exists []. cbn [store returned].
    rewrite add_rows_nil. repeat split; [constructor | discriminate].
  - rewrite (ingest_pending now doc db q qs Hp). cbv zeta.
    cbn [store returned].
    destruct (process_pages_trace image reply_for now doc
                (reference_of (file_path doc)) (q :: qs) 0%nat db 0%nat)
      as [added [done [rest [Hdb [_ [_ [Hadded [Hout _]]]]]]]].
    exists added. split; [exact Hdb|]. split.
    + eapply Forall_impl; [|exact Hadded]. simpl. tauto.
    + intros n Hn. destruct (outcome _) as [m|x]; [|discriminate].
      injection Hn as <-. destruct Hout as [_ ->]. reflexivity.
  - rewrite ingest_nothing_pending by eauto. exists []. cbn [store returned].
    rewrite add_rows_nil. repeat split; [constructor | discriminate].
Qed.

(** C5.  For a pending page whose reply is not JSON: [extract_exercises]
    returns the empty list; the loop goes on with the remaining pages,
    store and count untouched; and after the run the page is still
    pending, so a later run visits it again. *)
Theorem unparsable_page_is_skipped_and_stays_pending
  (now : nat -> nat -> string) (doc : document image) (db : database)
  (pages : list Z) (p : Z) (im : image) :
  pending_pages marker_in doc db = Ok pages ->
  In p pages ->
  Py.index (page_imgs doc) (p - 1) = Ok im ->
  reply_for im = NotJson ->
  extract_exercises reply_for im = Ok [] /\
  (forall ref i rest db' num,
     process_pages reply_for now doc ref i (p :: rest) db' num =
     sent p (process_pages reply_for now doc ref (S i) rest db' num)) /\
  exists pages',
    pending_pages marker_in doc
      (store (process_document marker_in reply_for now doc db)) = Ok pages' /\
    In p pages'.
Proof.
  intros Hp Hin Hidx Hreply.
  pose proof (unparsable_page_skips doc p im Hidx Hreply) as Hskip.
  split; [|split].
  - unfold extract_exercises. rewrite Hreply. reflexivity.
  - intros ref i rest db' num. rewrite process_pages_step.
    pose proof (page_rows_kind image reply_for now doc ref i p) as Hkind.
    rewrite Hskip in Hkind. rewrite Hkind.
    rewrite add_rows_nil, Nat.add_0_r. reflexivity.
  - destruct (pending_pages_inv doc db _ Hp) as [cand [Hc [Hap Hpages]]].
    rewrite (pending_pages_later doc cand _ Hc Hap).
    eexists. split; [reflexivity|].
    rewrite Hpages in Hin. apply filter_In in Hin. destruct Hin as [Hcand Hg].
    apply filter_In. split; [exact Hcand|].
    destruct (process_document_adds now doc db) as [added [Hstore [Hadded _]]].
    rewrite Hstore, has_row_add_rows. apply negb_true_iff in Hg. rewrite Hg.
    simpl. apply negb_true_iff.
    apply (added_rows_miss doc); [exact Hadded|].
    rewrite Hskip. discriminate.
Qed.

(** C8 (amended).  When [process_document] returns a number, that
    number is the count of rows the run added to the store, and the
    other table is untouched.  It returns a number exactly when some page
    is pending and no pending page raises; that number may be 0.  When no
    page is pending it returns [None] and stores nothing. *)
Theorem returned_count_is_rows_stored
  (now : nat -> nat -> string) (doc : document image) (db : database) :
  let r := process_document marker_in reply_for now doc db in
  (forall n, returned r = Some n ->
     exists added, store r = add_rows db added /\ List.length added = n) /\
  (forall p ps,
     pending_pages marker_in doc db = Ok (p :: ps) ->
     Forall (fun q => page_kind_of reply_for doc q <> Fails) (p :: ps) ->
     exists n, returned r = Some n) /\
  (pending_pages marker_in doc db = Ok [] ->
     returned r = None /\ store r = db).
Proof.
  intros r. subst r. split; [|split].
  - intros n Hn.
    destruct (process_document_adds now doc db) as [added [Hstore [_ Hcount]]].
    exists added. split; [exact Hstore|]. symmetry. apply Hcount. exact Hn.
  - intros p ps Hp Hall. rewrite (ingest_pending now doc db p ps Hp).
    cbv zeta. cbn [returned].
    destruct (process_pages_trace image reply_for now doc
                (reference_of (file_path doc)) (p :: ps) 0%nat db 0%nat)
      as [added [done [rest [_ [Hpages [_ [_ [Hout _]]]]]]]].
    destruct (outcome _) as [n|x]; [eauto|].
    exfalso. destruct Hout as [q [rest' [-> Hfail]]].
    rewrite Forall_forall in Hall. apply (Hall q); [|exact Hfail].
    rewrite Hpages. apply in_or_app. right. left. reflexivity.
  - intros Hp. rewrite ingest_nothing_pending by auto. auto.
Qed.

End IngestFacts.

(** ** Runs on the sample documents *)

Lemma second_ingestion_of_book :
  let r1 := process_document Sample.marker_in Sample.reply_for Sample.clock
              Sample.book Sample.empty_db in
  let r2 := process_document Sample.marker_in Sample.reply_for Sample.clock
              Sample.book (store r1) in
  returned r1 = Some 4%nat /\ returned r2 = Some 0%nat /\ store r2 = store r1.
Proof. vm_compute. auto. Qed.



Lemma unparsable_page_is_skipped_and_stays_pending_witness :
  extract_exercises Sample.reply_for 3%nat = Ok [] /\
  (forall ref i rest db' num,
     process_pages Sample.reply_for Sample.clock Sample.book ref i
       (3 :: rest) db' num =
     sent 3 (process_pages Sample.reply_for Sample.clock Sample.book ref
               (S i) rest db' num)) /\
  exists pages',
    pending_pages Sample.marker_in Sample.book
      (store (process_document Sample.marker_in Sample.reply_for Sample.clock
                Sample.book Sample.empty_db)) = Ok pages' /\
    In 3 pages'.
Proof.
  apply (unparsable_page_is_skipped_and_stays_pending nat Sample.marker_in
           Sample.reply_for Sample.clock Sample.book Sample.empty_db
           [2; 2; 3] 3 3%nat).
  - vm_compute. reflexivity.
  - simpl. auto.
  - vm_compute. reflexivity.
  - reflexivity.
Defined.

(** C8 as worded fails.  Every candidate page of [leaflet] has rows
    after the first run; the second run completes without an exception,
    stores no row, and returns [None], not the count 0. *)
Lemma nothing_pending_returns_none :
  let r1 := process_document Sample.marker_in Sample.reply_for Sample.clock
              Sample.leaflet Sample.empty_db in
  let r2 := process_document Sample.marker_in Sample.reply_for Sample.clock
              Sample.leaflet (store r1) in
  pending_pages Sample.marker_in Sample.leaflet (store r1) = Ok [] /\
  store r2 = store r1 /\
  returned r2 = None /\
  returned r2 <> Some 0%nat.
Proof.
  vm_compute. repeat split. discriminate.
Qed.

(** A run that visits a page and finds nothing returns the count 0. *)
Lemma nothing_found_returns_zero :
  returned (process_document Sample.marker_in Sample.reply_for Sample.clock
              Sample.notes Sample.empty_db) = Some 0%nat.
Proof. reflexivity. Qed.

(** ** The page selector *)

Section SelectorFacts.

Variable image : Type.
Variable marker_in : string -> bool.

(** [int(str(z))] gives [z] back. *)
Lemma int_str z : Py.int (Py.str z) = Ok z.
Proof.
  unfold Py.int, Py.str. rewrite NilZero.isi.
  - rewrite DecimalZ.of_to. reflexivity.
  - destruct z; simpl; try discriminate.
    intros H. injection H as H. revert H. apply Unsigned.to_uint_nonnil.
  - destruct z; simpl; try discriminate.
    intros H. injection H as H. revert H. apply Unsigned.to_uint_nonnil.
Qed.

Lemma uint_no_colon d : has_char ":" (NilEmpty.string_of_uint d) = false.
Proof. induction d; simpl; auto. Qed.

Lemma str_no_colon z : has_char ":" (Py.str z) = false.
Proof.
  unfold Py.str, NilZero.string_of_int, NilZero.string_of_uint.
  destruct (Z.to_int z) as [d|d]; destruct d; simpl;
    try reflexivity; apply uint_no_colon.
Qed.

(** The first piece of a split is what stands before the first
    separator. *)
Lemma split_on_head c a b :
  has_char c a = false ->
  hd "" (split_on c (a ++ String c b)) = a.
Proof.
  induction a as [|x a IH]; simpl; intros H.
  - rewrite Ascii.eqb_refl. reflexivity.
  - apply orb_false_iff in H. destruct H as [Hx Ha].
    rewrite Hx. specialize (IH Ha).
    destruct (split_on c (a ++ String c b)) as [|piece pieces]; simpl in *.
    + subst a. reflexivity.
    + rewrite IH. reflexivity.
Qed.

Lemma pages_of_lines_app l1 l2 pages1 pages2 :
  pages_of_lines l1 = Ok pages1 ->
  pages_of_lines l2 = Ok pages2 ->
  pages_of_lines (l1 ++ l2) = Ok (pages1 ++ pages2)%list.
Proof.
  unfold pages_of_lines. revert pages1.
  induction l1 as [|x l1 IH]; simpl; intros pages1 H1 H2.
  - injection H1 as <-. exact H2.
  - apply bind_ok_inv in H1. destruct H1 as [n [Hn H1]].
    apply bind_ok_inv in H1. destruct H1 as [ns [Hns H1]].
    injection H1 as <-. rewrite Hn. simpl.
    rewrite (IH ns Hns H2). reflexivity.
Qed.

Lemma pages_of_lines_cons x l :
  pages_of_lines (x :: l) =
  n <- Py.int (hd "" (split_on ":" x)) ;;
  ns <- pages_of_lines l ;;
  Ok (n :: ns).
Proof. reflexivity. Qed.

Lemma pages_of_prefixed_lines n lines :
  pages_of_lines (map (fun l => Py.str n ++ ":" ++ l) lines) =
  Ok (repeat n (List.length lines)).
Proof.
  induction lines as [|l lines IH]; [reflexivity|].
  cbn [map List.length repeat]. rewrite pages_of_lines_cons, IH.
  replace (Py.str n ++ ":" ++ l) with (Py.str n ++ String ":" l)
    by reflexivity.
  rewrite (split_on_head ":" (Py.str n) l (str_no_colon n)).
  rewrite int_str. reflexivity.
Qed.

(** [get_exercise_pages] reads back one page number per output line of
    the scanner. *)
Lemma pages_of_pdfgrep pages : forall n,
  pages_of_lines (pdfgrep_from marker_in n pages) =
  Ok (match_pages_from (image := image) marker_in n pages).
Proof.
  induction pages as [|pg pages IH]; intros n; simpl; [reflexivity|].
  apply pages_of_lines_app; [|apply IH].
  exact (pages_of_prefixed_lines n (filter marker_in (text_lines pg))).
Qed.

Lemma match_pages_lower pages : forall n p,
  In p (match_pages_from (image := image) marker_in n pages) ->
  n <= p < n + Z.of_nat (List.length pages).
Proof.
  induction pages as [|pg pages IH]; intros n p Hin; simpl in *;
    [destruct Hin|].
  apply in_app_or in Hin. destruct Hin as [Hin|Hin].
  - apply repeat_spec in Hin. lia.
  - apply IH in Hin. lia.
Qed.

Lemma match_pages_sorted pages : forall n,
  Sorted Z.le (match_pages_from (image := image) marker_in n pages).
Proof.
  induction pages as [|pg pages IH]; intros n; simpl; [constructor|].
  specialize (IH (n + 1)).
  assert (Hlow : forall p, In p (match_pages_from marker_in (n + 1) pages) ->
                           n <= p).
  { intros p Hp. apply match_pages_lower in Hp. lia. }
  induction (List.length (filter marker_in (text_lines pg))) as [|k IHk];
    simpl; [exact IH|].
  constructor; [exact IHk|].
  destruct k; simpl.
  - destruct (match_pages_from marker_in (n + 1) pages) as [|q qs];
      constructor. apply Hlow. left. reflexivity.
  - constructor. lia.
Qed.

Lemma match_pages_count pages : forall n p,
  count_occ Z.eq_dec (match_pages_from (image := image) marker_in n pages) p =
  if n <=? p then
    match nth_error pages (Z.to_nat (p - n)) with
    | Some pg => List.length (filter marker_in (text_lines pg))
    | None => 0%nat
    end
  else 0%nat.
Proof.
  induction pages as [|pg pages IH]; intros n p; simpl.
  - destruct (n <=? p); [|reflexivity].
    destruct (Z.to_nat (p - n)); reflexivity.
  - rewrite count_occ_app, IH.
    destruct (Z.eq_dec p n) as [->|Hne].
    + rewrite count_occ_repeat_eq by reflexivity.
      rewrite Z.leb_refl. replace (n - n) with 0 by lia. simpl.
      destruct (Z.leb_spec (n + 1) n); [lia|]. lia.
    + rewrite count_occ_repeat_neq by exact Hne. simpl.
      destruct (Z.leb_spec n p) as [Hle|Hgt].
      * destruct (Z.leb_spec (n + 1) p); [|lia].
        replace (Z.to_nat (p - n)) with (S (Z.to_nat (p - (n + 1)))) by lia.
        reflexivity.
      * destruct (Z.leb_spec (n + 1) p); [lia|]. reflexivity.
Qed.

Lemma match_pages_nil pages : forall n,
  match_pages_from (image := image) marker_in n pages = [] <->
  forall pg, In pg pages -> filter marker_in (text_lines pg) = [].
Proof.
  induction pages as [|pg pages IH]; intros n; simpl.
  - split; [intros _ pg [] | reflexivity].
  - split.
    + intros H. apply app_eq_nil in H. destruct H as [H1 H2].
      intros pg' [<-|Hin].
      * destruct (filter marker_in (text_lines pg)); [reflexivity|].
        simpl in H1. discriminate.
      * apply (proj1 (IH (n + 1)) H2). exact Hin.
    + intros H. rewrite (H pg (or_introl eq_refl)). simpl.
      apply IH. intros pg' Hin. apply H. right. exact Hin.
Qed.

Lemma range1_sorted n : Sorted Z.le (Py.range1 n).
Proof.
  unfold Py.range1. generalize 1%nat.
  induction n as [|n IH]; intros k; simpl; constructor.
  - apply IH.
  - destruct n; simpl; constructor. lia.
Qed.

Lemma range1_In n p : In p (Py.range1 n) <-> 1 <= p <= Z.of_nat n.
Proof.
  unfold Py.range1. rewrite in_map_iff. split.
  - intros [k [<- Hk]]. apply in_seq in Hk. lia.
  - intros H. exists (Z.to_nat p). split; [lia|]. apply in_seq. lia.
Qed.

Lemma range1_NoDup n : NoDup (Py.range1 n).
Proof.
  unfold Py.range1. apply Finite.Injective_map_NoDup.
  - intros a b H. lia.
  - apply seq_NoDup.
Qed.


End SelectorFacts.


(** ** Grading *)

Section GraderFacts.

Import Grader.

(** A usable reply adds exactly one attempt, with the verdict of the
    reply. *)
Lemma usable_reply_writes_one_attempt t c f ref pg num date db :
  process_solution (GradingObject (mkGrading (Some t) (Some c) (Some f)))
                   ref pg num date db =
  (mkDatabase (exercises_table db)
              (attempts_table db ++ [mkAttempt ref pg num t c f date]),
   Success t c f).
Proof. reflexivity. Qed.



End GraderFacts.

(** ** The exercise query *)

Section QueryFacts.

Import Query.

Lemma key_eqb_eq a b : key_eqb a b = true <-> a = b.
Proof.
  destruct a as [[r1 p1] n1], b as [[r2 p2] n2]. unfold key_eqb.
  rewrite !andb_true_iff, String.eqb_eq, !Z.eqb_eq. split.
  - intros [[-> ->] ->]. reflexivity.
  - intros H. injection H as -> -> ->. auto.
Qed.

Lemma mem_key k seen :
  existsb (key_eqb k) seen = true <-> In k seen.
Proof.
  rewrite existsb_exists. split.
  - intros [x [Hx Heq]]. apply key_eqb_eq in Heq. subst. exact Hx.
  - intros H. exists k. split; [exact H | apply key_eqb_eq; reflexivity].
Qed.

Lemma group_heads_in rows : forall seen e,
  In e (group_heads seen rows) ->
  In e rows /\ ~ In (exercise_key e) seen.
Proof.
  induction rows as [|a rows IH]; intros seen e Hin; simpl in Hin;
    [destruct Hin|].
  destruct (existsb (key_eqb (exercise_key a)) seen) eqn:Hmem.
  - destruct (IH _ _ Hin). split; [right|]; assumption.
  - destruct Hin as [<-|Hin].
    + split; [left; reflexivity|]. intros H. apply mem_key in H. congruence.
    + destruct (IH _ _ Hin) as [H1 H2]. split; [right; exact H1|].
      intros H. apply H2. right. exact H.
Qed.

(** Every key of the table has its group. *)
Lemma group_heads_complete rows : forall seen e,
  In e rows -> ~ In (exercise_key e) seen ->
  exists e', In e' (group_heads seen rows) /\ exercise_key e' = exercise_key e.
Proof.
  induction rows as [|a rows IH]; intros seen e Hin Hseen; [destruct Hin|].
  simpl. destruct (existsb (key_eqb (exercise_key a)) seen) eqn:Hmem.
  - destruct Hin as [->|Hin].
    + apply mem_key in Hmem. contradiction.
    + apply IH; assumption.
  - destruct Hin as [->|Hin].
    + exists e. split; [left|]; reflexivity.
    + destruct (key_eqb (exercise_key a) (exercise_key e)) eqn:Hk.
      * apply key_eqb_eq in Hk. exists a. split; [left; reflexivity | exact Hk].
      * destruct (IH (exercise_key a :: seen) e Hin) as [e' [He' Hk']].
        { intros [H|H]; [|contradiction].
          rewrite H in Hk.
          assert (key_eqb (exercise_key e) (exercise_key e) = true)
            by (apply key_eqb_eq; reflexivity).
          congruence. }
        exists e'. split; [right; exact He' | exact Hk'].
Qed.

(** One row per key. *)
Lemma group_heads_nodup rows : forall seen,
  NoDup (map exercise_key (group_heads seen rows)).
Proof.
  induction rows as [|a rows IH]; intros seen; simpl; [constructor|].
  destruct (existsb (key_eqb (exercise_key a)) seen); [apply IH|].
  simpl. constructor; [|apply IH].
  intros H. apply in_map_iff in H. destruct H as [e [Hk He]].
  apply group_heads_in in He. destruct He as [_ He]. apply He.
  left. symmetry. exact Hk.
Qed.

Lemma max_verdicts_zero atts :
  fold_right Z.max 0 (map (fun a => Z.b2z (is_solution_correct a)) atts) = 0 <->
  forall a, In a atts -> is_solution_correct a = false.
Proof.
  induction atts as [|a atts IH]; simpl.
  - split; [intros _ a [] | reflexivity].
  - assert (Hnn : 0 <= fold_right Z.max 0
                         (map (fun a => Z.b2z (is_solution_correct a)) atts)).
    { clear. induction atts; simpl; lia. }
    split.
    + intros H a' [<-|Hin].
      * destruct (is_solution_correct a); [simpl in H; lia | reflexivity].
      * apply IH; [|exact Hin].
        destruct (is_solution_correct a); simpl in H; lia.
    + intros H. rewrite (H a (or_introl eq_refl)). simpl.
      rewrite (proj2 IH); [reflexivity|].
      intros a' Hin. apply H. right. exact Hin.
Qed.

Lemma is_solved_zero atts :
  sql_eq (is_solved atts) 0 = true <->
  atts <> [] /\ forall a, In a atts -> is_solution_correct a = false.
Proof.
  destruct atts as [|a atts].
  - simpl. split; [discriminate | intros [H _]; congruence].
  - unfold is_solved, sql_eq. rewrite Z.eqb_eq, max_verdicts_zero.
    split; [intros H; split; [discriminate | exact H] | tauto].
Qed.

Lemma having_incorrect r :
  having [] [] ["incorrect"] r = sql_eq (row_is_solved r) 0.
Proof. reflexivity. Qed.

Lemma joined_spec db k a :
  In a (joined db k) <-> In a (attempts_table db) /\ attempt_key a = k.
Proof.
  unfold joined. rewrite filter_In, key_eqb_eq. reflexivity.
Qed.

(** C10.  With the status filter "incorrect" alone, the query returns
    one row per exercise key, and the key of an exercise is returned
    exactly when some attempt is recorded for it and none of its attempts
    is correct; an exercise with a correct and an incorrect attempt is
    left out. *)
Theorem incorrect_filter_returns_attempted_never_correct
  (db : database) (k : Query.key) :
  let rows := get_exercises db [] [] ["incorrect"] in
  NoDup (map (fun r => exercise_key (row_exercise r)) rows) /\
  ((exists r, In r rows /\ exercise_key (row_exercise r) = k) <->
   (exists e, In e (exercises_table db) /\ exercise_key e = k) /\
   (exists a, In a (attempts_table db) /\ attempt_key a = k) /\
   (forall a, In a (attempts_table db) -> attempt_key a = k ->
              is_solution_correct a = false)).
Proof.
  intros rows. subst rows. unfold get_exercises. split.
  - set (heads := group_heads [] (exercises_table db)).
    assert (Hnd : NoDup (map exercise_key heads)) by apply group_heads_nodup.
    clearbody heads. induction heads as [|e heads IH]; simpl; [constructor|].
    inversion Hnd as [|? ? Hnot Hnd']; subst.
    destruct (having _ _ _ _); [|apply IH; exact Hnd'].
    simpl. constructor; [|apply IH; exact Hnd'].
    intros H. apply Hnot. apply in_map_iff in H.
    destruct H as [r [Hk Hr]]. apply filter_In in Hr. destruct Hr as [Hr _].
    apply in_map_iff in Hr. destruct Hr as [e' [<- He']].
    simpl in Hk. rewrite <- Hk. apply in_map. exact He'.
  - split.
    + intros [r [Hr Hk]]. apply filter_In in Hr. destruct Hr as [Hr Hh].
      apply in_map_iff in Hr. destruct Hr as [e [<- He]].
      simpl in Hk. subst k. rewrite having_incorrect in Hh. simpl in Hh.
      apply is_solved_zero in Hh. destruct Hh as [Hne Hall].
      apply group_heads_in in He. destruct He as [He _].
      split; [eauto|]. split.
      * destruct (joined db (exercise_key e)) as [|a atts] eqn:Hj;
          [congruence|].
        exists a. apply joined_spec. rewrite Hj. left. reflexivity.
      * intros a Ha Hk. apply Hall. apply joined_spec. auto.
    + intros [[e [He Hk]] [[a [Ha Hka]] Hall]].
      destruct (group_heads_complete (exercises_table db) [] e He)
        as [e' [He' Hk']]; [intros []|].
      exists (mkRow e' (attempt_count (joined db (exercise_key e')))
                    (is_solved (joined db (exercise_key e')))).
      split; [|simpl; congruence].
      apply filter_In. split.
      * apply in_map_iff. exists e'. auto.
      * rewrite having_incorrect. simpl. apply is_solved_zero.
        assert (Hkk : exercise_key e' = k) by congruence.
        rewrite Hkk. split.
        -- intros Hnil.
           assert (Hin : In a (joined db k)) by (apply joined_spec; auto).
           rewrite Hnil in Hin. destruct Hin.
        -- intros a' Ha'. apply joined_spec in Ha'. destruct Ha'. auto.
Qed.

End QueryFacts.

(** On [graded_db] only the second exercise is returned. *)
Example incorrect_filter_on_graded_db :
  map (fun r => Query.exercise_key (Query.row_exercise r))
      (Query.get_exercises Sample.graded_db [] [] ["incorrect"])
  = [("book", 2, 2)].
Proof. reflexivity. Qed.

(** * Further properties *)

(** ** The heading frame: order and chapter propagation *)

Section FrameOrder.

Import Toc.

Lemma insert_by_page_sorted r rows :
  Sorted Z.le (map r_page rows) ->
  Sorted Z.le (map r_page (insert_by_page r rows)).
Proof.
  induction rows as [|a rows IH]; simpl; intros Hs.
  - constructor; constructor.
  - destruct (Z.ltb_spec (r_page a) (r_page r)) as [Hlt|Hge].
    + inversion Hs as [|? ? Hs' Hhd]; subst. simpl.
      constructor; [apply IH; exact Hs'|].
      destruct rows as [|b rows]; simpl.
      * constructor. lia.
      * destruct (r_page b <? r_page r); simpl; constructor.
        -- inversion Hhd; subst. assumption.
        -- lia.
    + simpl. constructor; [exact Hs|]. constructor. exact Hge.
Qed.

Lemma sort_values_sorted rows : Sorted Z.le (map r_page (sort_values rows)).
Proof.
  induction rows as [|r rows IH]; simpl; [constructor|].
  apply insert_by_page_sorted. exact IH.
Qed.

Lemma entries_pages rows rows' :
  map entry rows = map entry rows' -> map r_page rows = map r_page rows'.
Proof. intros H. rewrite !map_entry_page, H. reflexivity. Qed.

Lemma heading_of_label_rows hs : forall n,
  map heading_of_row (label_rows n hs) = hs.
Proof.
  induction hs as [|h hs IH]; intros n; simpl; [reflexivity|].
  rewrite IH. destruct h. reflexivity.
Qed.

Lemma map_entry_heading rows :
  map heading_of_row rows =
  map (fun x => mkHeading (snd (fst (fst x))) (snd (fst x)) (snd x))
      (map entry rows).
Proof. rewrite map_map. reflexivity. Qed.

Lemma headings_frame_perm_sorted
  (gh : Z -> list heading) (frame : list hrow) :
  headings_frame gh = Ok frame ->
  Permutation (map heading_of_row frame) (gh 0 ++ gh 1)%list /\
  Sorted Z.le (map r_page frame).
Proof.
  intros H. apply headings_frame_ok in H. destruct H as [_ ->]. split.
  - rewrite map_entry_heading.
    rewrite (Permutation_map _ (chapter_frame_entries _)).
    rewrite <- map_entry_heading. unfold DataFrame.
    rewrite heading_of_label_rows. reflexivity.
  - unfold chapter_frame.
    rewrite (entries_pages _ (sort_values (DataFrame (gh 0 ++ gh 1)%list))).
    + apply sort_values_sorted.
    + rewrite ffill_entries, set_level0_chapter_entries, init_chapter_entries.
      reflexivity.
Qed.

(** The frame of lines 210-214 holds the headings of the table of
    contents, each once, in ascending page order. *)
Theorem headings_frame_sorted_permutation
  (gh : Z -> list heading) (frame : list hrow) :
  headings_frame gh = Ok frame ->
  Permutation (map heading_of_row frame) (gh 0 ++ gh 1)%list /\
  Sorted Z.le (map r_page frame).
Proof. apply headings_frame_perm_sorted. Qed.

Lemma headings_frame_sorted_permutation_witness :
  Permutation
    (map heading_of_row (chapter_frame (Sample.toc_ch1_ch2 0 ++ Sample.toc_ch1_ch2 1)%list))
    (Sample.toc_ch1_ch2 0 ++ Sample.toc_ch1_ch2 1)%list /\
  Sorted Z.le
    (map r_page (chapter_frame (Sample.toc_ch1_ch2 0 ++ Sample.toc_ch1_ch2 1)%list)).
Proof.
  apply (headings_frame_sorted_permutation Sample.toc_ch1_ch2).
  reflexivity.
Defined.

Lemma last_level0_title_snoc pre r :
  last_level0_title (pre ++ [r]) =
  if r_level r =? 0 then Some (r_title r) else last_level0_title pre.
Proof.
  unfold last_level0_title. rewrite rev_app_distr. simpl.
  destruct (r_level r =? 0); reflexivity.
Qed.

Lemma last_level0_title_cons a pre :
  last_level0_title (a :: pre) =
  match last_level0_title pre with
  | Some t => Some t
  | None => if r_level a =? 0 then Some (r_title a) else None
  end.
Proof.
  unfold last_level0_title. simpl. rewrite filter_app. simpl.
  destruct (filter (fun r => r_level r =? 0) (List.rev pre)) as [|r0 l]; simpl.
  - destruct (r_level a =? 0); reflexivity.
  - reflexivity.
Qed.

(** What forward filling leaves in the [chapter] column. *)
Lemma ffill_chapters rows : forall last pre r post,
  ffill last (set_level0_chapter (init_chapter rows)) = (pre ++ r :: post)%list ->
  r_chapter r =
  if r_level r =? 0 then Some (r_title r)
  else match last_level0_title pre with
       | Some t => Some t
       | None => last
       end.
Proof.
  induction rows as [|a rows IH]; intros last pre r post H.
  - destruct pre; discriminate.
  - simpl in H. destruct (r_level a =? 0) eqn:Ha; simpl in H.
    + destruct pre as [|b pre]; simpl in H.
      * injection H as <- _. simpl. rewrite Ha. reflexivity.
      * injection H as <- Hrest.
        rewrite (IH _ _ _ _ Hrest). rewrite last_level0_title_cons.
        simpl. rewrite Ha.
        destruct (r_level r =? 0); [reflexivity|].
        destruct (last_level0_title pre); reflexivity.
    + destruct pre as [|b pre]; simpl in H.
      * injection H as <- _. simpl. rewrite Ha. reflexivity.
      * injection H as <- Hrest.
        rewrite (IH _ _ _ _ Hrest). rewrite last_level0_title_cons.
        simpl. rewrite Ha.
        destruct (r_level r =? 0); [reflexivity|].
        destruct (last_level0_title pre); reflexivity.
Qed.

Lemma frame_chapter_nearest_level0
  (gh : Z -> list heading) (frame pre post : list hrow) (r : hrow) :
  headings_frame gh = Ok frame ->
  frame = (pre ++ r :: post)%list ->
  r_chapter r =
  if r_level r =? 0 then Some (r_title r) else last_level0_title pre.
Proof.
  intros H Hsplit. apply headings_frame_ok in H. destruct H as [_ H].
  rewrite H in Hsplit. unfold chapter_frame in Hsplit.
  rewrite (ffill_chapters _ _ _ _ _ Hsplit).
  destruct (r_level r =? 0); [reflexivity|].
  destruct (last_level0_title pre); reflexivity.
Qed.

(** In the frame, a level-0 row has its own title as chapter, and any
    other row has the title of the last level-0 row above it; rows above
    the first level-0 row have no chapter (NA). *)
Theorem chapter_is_nearest_level0_above
  (gh : Z -> list heading) (frame pre post : list hrow) (r : hrow) :
  headings_frame gh = Ok frame ->
  frame = (pre ++ r :: post)%list ->
  r_chapter r =
  if r_level r =? 0 then Some (r_title r) else last_level0_title pre.
Proof. apply frame_chapter_nearest_level0. Qed.

Lemma chapter_is_nearest_level0_above_witness :
  r_chapter (mkHrow 2 "1.2" 5 1 (Some "Ch1")) =
  if r_level (mkHrow 2 "1.2" 5 1 (Some "Ch1")) =? 0
  then Some (r_title (mkHrow 2 "1.2" 5 1 (Some "Ch1")))
  else last_level0_title [mkHrow 0 "Ch1" 1 0 (Some "Ch1")].
Proof.
  apply (chapter_is_nearest_level0_above Sample.toc_ch1_ch2
           (chapter_frame (Sample.toc_ch1_ch2 0 ++ Sample.toc_ch1_ch2 1)%list)
           [mkHrow 0 "Ch1" 1 0 (Some "Ch1")]
           [mkHrow 1 "Ch2" 10 0 (Some "Ch2")]).
  - reflexivity.
  - reflexivity.
Defined.

End FrameOrder.

(** ** The enricher: which chapters can be assigned *)

Section AssignedChapters.

Import Toc.

Lemma enriched_row_section gh exs exs' :
  enrich_with_toc gh exs = Ok exs' ->
  exists frame,
    headings_frame gh = Ok frame /\
    forall e', In e' exs' ->
      exists e section,
        In e exs /\ page e' = page e /\
        section_for frame (page e') = Ok section /\
        chapter e' = r_chapter section /\
        tags e' =
          tags e ++ "," ++
          join "," (titles_of_chapter frame (r_chapter section)).
Proof.
  unfold enrich_with_toc. intros H.
  apply bind_ok_inv in H. destruct H as [frame [Hframe Hrows]].
  exists frame. split; [exact Hframe|].
  apply enrich_rows_forall2 in Hrows.
  induction Hrows as [|e e' exs exs' Hrow Hrest IH]; intros x Hx;
    [destruct Hx|].
  destruct Hx as [<-|Hx].
  - unfold enrich_row in Hrow. apply bind_ok_inv in Hrow.
    destruct Hrow as [section [Hsec Hrow]]. injection Hrow as <-.
    exists e, section. simpl. repeat split; auto.
  - destruct (IH x Hx) as [e0 [section [He0 H]]].
    exists e0, section. split; [right; exact He0 | exact H].
Qed.

Lemma section_for_in frame P section :
  NoDup (map r_label frame) ->
  section_for frame P = Ok section ->
  exists pre post,
    frame = (pre ++ section :: post)%list /\ r_page section < P.
Proof.
  intros Hnd Hsec.
  assert (Hne : pages_below frame P <> []).
  { intros Hnil. rewrite (section_for_none _ _ Hnil) in Hsec. discriminate. }
  destruct (section_for_spec frame P Hnd Hne)
    as [pre [r [post [Hframe [Hlt [_ [_ Hr]]]]]]].
  rewrite Hr in Hsec. injection Hsec as <-. eauto.
Qed.

Lemma last_level0_title_some pre c :
  last_level0_title pre = Some c ->
  exists r0, In r0 pre /\ r_level r0 = 0 /\ r_title r0 = c.
Proof.
  unfold last_level0_title.
  destruct (filter (fun r => r_level r =? 0) (List.rev pre)) as [|r0 l] eqn:Hf;
    [discriminate|].
  intros H. injection H as <-.
  assert (Hin : In r0 (filter (fun r => r_level r =? 0) (List.rev pre)))
    by (rewrite Hf; left; reflexivity).
  apply filter_In in Hin. destruct Hin as [Hin Hl].
  exists r0. split; [apply in_rev; exact Hin|].
  split; [apply Z.eqb_eq; exact Hl | reflexivity].
Qed.

Lemma sorted_before pre r post r0 :
  Sorted Z.le (map r_page (pre ++ r :: post)) ->
  In r0 pre -> r_page r0 <= r_page r.
Proof.
  intros Hs Hin. apply Sorted_StronglySorted in Hs;
    [|intros x y z; apply Z.le_trans].
  induction pre as [|a pre IH]; [destruct Hin|].
  simpl in Hs. inversion Hs as [|? ? Hs' Hall]; subst.
  destruct Hin as [<-|Hin]; [|apply IH; assumption].
  rewrite Forall_forall in Hall. apply Hall.
  apply in_map. apply in_or_app. right. left. reflexivity.
Qed.

(** A chapter written by [enrich_with_toc] is the title of a level-0
    heading of the table of contents that stands on a page before the
    exercise's. *)
Theorem assigned_chapter_is_earlier_level0_title
  (gh : Z -> list heading) (exs exs' : list exercise) (e' : exercise)
  (c : string) :
  enrich_with_toc gh exs = Ok exs' ->
  In e' exs' ->
  chapter e' = Some c ->
  exists h,
    In h (gh 0 ++ gh 1)%list /\
    h_level h = 0 /\ h_title h = c /\ h_page h < page e'.
Proof.
  intros Henrich Hin Hc.
  destruct (enriched_row_section gh exs exs' Henrich) as [frame [Hframe Hall]].
  destruct (Hall e' Hin) as [e [section [_ [_ [Hsec [Hch _]]]]]].
  destruct (headings_frame_perm_sorted gh frame Hframe) as [Hperm Hsorted].
  pose proof (headings_frame_ok gh frame Hframe) as [_ Heq].
  assert (Hnd : NoDup (map r_label frame))
    by (rewrite Heq; apply chapter_frame_labels_nodup).
  destruct (section_for_in frame (page e') section Hnd Hsec)
    as [pre [post [Hsplit Hlt]]].
  pose proof (frame_chapter_nearest_level0 gh frame pre post section
                Hframe Hsplit) as Hchap.
  rewrite Hch in Hc. rewrite Hc in Hchap.
  assert (Hrow : exists r0, In r0 frame /\ r_level r0 = 0 /\ r_title r0 = c /\
                            r_page r0 <= r_page section).
  { destruct (r_level section =? 0) eqn:Hl.
    - injection Hchap as ->. exists section. split.
      + rewrite Hsplit. apply in_or_app. right. left. reflexivity.
      + split; [apply Z.eqb_eq; exact Hl|]. split; [reflexivity | lia].
    - symmetry in Hchap. apply last_level0_title_some in Hchap.
      destruct Hchap as [r0 [Hr0 [Hl0 Ht0]]]. exists r0. split.
      + rewrite Hsplit. apply in_or_app. left. exact Hr0.
      + split; [exact Hl0|]. split; [exact Ht0|].
        rewrite Hsplit in Hsorted. eapply sorted_before; eassumption. }
  destruct Hrow as [r0 [Hr0 [Hl0 [Ht0 Hp0]]]].
  exists (heading_of_row r0). split.
  - eapply Permutation_in; [exact Hperm|]. apply in_map. exact Hr0.
  - simpl. repeat split; [exact Hl0 | exact Ht0 | lia].
Qed.

Lemma assigned_chapter_is_earlier_level0_title_witness :
  exists h,
    In h (Sample.toc_ch1_ch2 0 ++ Sample.toc_ch1_ch2 1)%list /\
    h_level h = 0 /\ h_title h = "Ch1" /\
    h_page h < page (with_chapter_tags (Sample.exercise_on 7) (Some "Ch1")
                       "sets,counting,Ch1,1.2").
Proof.
  apply (assigned_chapter_is_earlier_level0_title Sample.toc_ch1_ch2
           [Sample.exercise_on 7]
           [with_chapter_tags (Sample.exercise_on 7) (Some "Ch1")
              "sets,counting,Ch1,1.2"]).
  - reflexivity.
  - left. reflexivity.
  - reflexivity.
Defined.

End AssignedChapters.

(** ** Ingestion: what a run adds, counts and sends *)

Section RunFacts.

Variable image : Type.
Variable marker_in : string -> bool.
Variable reply_for : image -> page_reply.

Lemma Forall2_In_right {A B : Type} (R : A -> B -> Prop) l l' y :
  Forall2 R l l' -> In y l' -> exists x, In x l /\ R x y.
Proof.
  induction 1 as [|a b l l' Hab Hrest IH]; intros Hin; [destruct Hin|].
  destruct Hin as [<-|Hin].
  - exists a. split; [left; reflexivity | exact Hab].
  - destruct (IH Hin) as [x [Hx HR]]. exists x. split; [right|]; assumption.
Qed.

Lemma enrich_rows_length frame exs exs' :
  Toc.enrich_rows frame exs = Ok exs' -> List.length exs' = List.length exs.
Proof.
  intros H. apply enrich_rows_forall2 in H.
  symmetry. eapply Forall2_length. exact H.
Qed.

Lemma stamp_all_length now ref p l : forall k,
  List.length (stamp_all now ref p k l) = List.length l.
Proof.
  induction l as [|r l IH]; intros k; simpl; [reflexivity|].
  rewrite IH. reflexivity.
Qed.

(** The rows stored for a page: as many as the service found, all on
    that page, under the reference, with a chapter. *)
Lemma page_rows_ok now (doc : document image) ref i p rows :
  page_rows reply_for now doc ref i p = Ok rows ->
  Forall (fun e => page e = p /\ reference e = ref /\
                   exists c, chapter e = Some c) rows /\
  List.length rows = records_on reply_for doc p /\
  exists im, Py.index (page_imgs doc) (p - 1) = Ok im.
Proof.
  unfold page_rows, records_on.
  destruct (Py.index (page_imgs doc) (p - 1)) as [im|x]; simpl;
    [|discriminate].
  destruct (extract_exercises reply_for im) as [raws|x]; simpl;
    [|discriminate].
  pose proof (stamp_all_rows (now i) ref p raws 0) as Hst.
  pose proof (stamp_all_length (now i) ref p raws 0) as Hlen.
  destruct (stamp_all (now i) ref p 0 raws) as [|b batch] eqn:Hb.
  - intros H. injection H as <-. split; [constructor|].
    split; [simpl in Hlen; rewrite <- Hlen; reflexivity | eauto].
  - intros H. apply bind_ok_inv in H. destruct H as [enriched [Hen H]].
    destruct (forallb Store.bindable enriched) eqn:Hbind; [|discriminate].
    injection H as <-.
    unfold Toc.enrich_with_toc in Hen. apply bind_ok_inv in Hen.
    destruct Hen as [frame [_ Hrows]].
    split; [|split; [|eauto]].
    + pose proof Hrows as Hf2. apply enrich_rows_forall2 in Hf2.
      rewrite forallb_forall in Hbind.
      apply Forall_forall. intros e' He'.
      destruct (Forall2_In_right _ _ _ _ Hf2 He') as [e [He Hrow]].
      rewrite Forall_forall in Hst. destruct (Hst e He) as [Hp Hr].
      unfold Toc.enrich_row in Hrow. apply bind_ok_inv in Hrow.
      destruct Hrow as [section [_ Hrow]].
      specialize (Hbind e' He'). unfold Store.bindable in Hbind.
      injection Hrow as <-. simpl in *.
      split; [exact Hp|]. split; [exact Hr|].
      destruct (r_chapter section) as [c|]; [eauto | discriminate].
    + rewrite (enrich_rows_length _ _ _ Hrows). exact Hlen.
Qed.

(** The loop, with what it adds and what it returns. *)
Lemma process_pages_run now (doc : document image) ref :
  forall pages i db num,
    let r := process_pages reply_for now doc ref i pages db num in
    exists added,
      db_after r = add_rows db added /\
      Forall (fun e => reference e = ref /\ In (page e) (pages_sent r) /\
                       exists c, chapter e = Some c) added /\
      forall n, outcome r = Ok n ->
        n = (num + list_sum (map (records_on reply_for doc) pages))%nat /\
        List.length added = list_sum (map (records_on reply_for doc) pages) /\
        pages_sent r = pages.
Proof.
  induction pages as [|p pages IH]; intros i db num r; subst r.
  - exists []. simpl. rewrite add_rows_nil. split; [reflexivity|].
    split; [constructor|]. intros n H. injection H as <-.
    repeat split. lia.
  - rewrite process_pages_step.
    destruct (page_rows reply_for now doc ref i p) as [rows|x] eqn:Hrows.
    + destruct (page_rows_ok now doc ref i p rows Hrows) as [Hall [Hlen _]].
      destruct (IH (S i) (add_rows db rows) (num + List.length rows)%nat)
        as [added [Hdb [Hadded Hout]]].
      exists (rows ++ added)%list. simpl.
      split; [rewrite Hdb; apply add_rows_app|]. split.
      * apply Forall_app. split.
        -- eapply Forall_impl; [|exact Hall]. simpl.
           intros e [Hp [Hr Hc]]. subst. auto.
        -- eapply Forall_impl; [|exact Hadded]. simpl.
           intros e [Hr [Hin Hc]]. auto.
      * intros n Hn. destruct (Hout n Hn) as [-> [Hl Hs]].
        rewrite length_app, Hl, Hs, Hlen. repeat split. lia.
    + exists []. simpl. rewrite add_rows_nil. split; [reflexivity|].
      split; [constructor|]. intros n H. discriminate.
Qed.

Lemma ingestion_appends
  (now : nat -> nat -> string) (doc : document image) (db : database) :
  let r := process_document marker_in reply_for now doc db in
  exists added,
    exercises_table (store r) = (exercises_table db ++ added)%list /\
    attempts_table (store r) = attempts_table db /\
    Forall (fun e => reference e = reference_of (file_path doc) /\
                     In (page e) (sent_to_ai r) /\
                     exists c, chapter e = Some c) added.
Proof.
  intros r. subst r.
  destruct (pending_pages marker_in doc db) as [[|q qs]|x] eqn:Hp.
  - rewrite (ingest_nothing_pending image marker_in reply_for) by auto.
    exists []. simpl. rewrite app_nil_r. repeat split. constructor.
  - rewrite (ingest_pending image marker_in reply_for now doc db q qs Hp).
    cbv zeta. cbn [store sent_to_ai].
    destruct (process_pages_run now doc (reference_of (file_path doc))
                (q :: qs) 0%nat db 0%nat) as [added [Hdb [Hadded _]]].
    exists added. rewrite Hdb. simpl. repeat split. exact Hadded.
  - rewrite (ingest_nothing_pending image marker_in reply_for) by eauto.
    exists []. simpl. rewrite app_nil_r. repeat split. constructor.
Qed.

(** [process_document] only appends to the [exercises] table and leaves
    the [attempts] table alone.  Every row it appends carries the
    reference of the document, stands on a page sent to the AI service
    in this run, and has a chapter. *)
Theorem ingestion_only_appends
  (now : nat -> nat -> string) (doc : document image) (db : database) :
  let r := process_document marker_in reply_for now doc db in
  exists added,
    exercises_table (store r) = (exercises_table db ++ added)%list /\
    attempts_table (store r) = attempts_table db /\
    Forall (fun e => reference e = reference_of (file_path doc) /\
                     In (page e) (sent_to_ai r) /\
                     exists c, chapter e = Some c) added.
Proof. apply ingestion_appends. Qed.

(** When [process_document] returns a count, every pending page was sent
    to the AI service, as many times as the selector lists it, and the
    count is the sum over that list of the exercises found on each page:
    a page listed twice is counted, and stored, twice. *)
Theorem returned_count_sums_listed_pages
  (now : nat -> nat -> string) (doc : document image) (db : database)
  (n : nat) :
  let r := process_document marker_in reply_for now doc db in
  returned r = Some n ->
  exists pages,
    pending_pages marker_in doc db = Ok pages /\
    sent_to_ai r = pages /\
    n = list_sum (map (records_on reply_for doc) pages) /\
    List.length (exercises_table (store r)) =
    (List.length (exercises_table db) + n)%nat.
Proof.
  intros r. subst r.
  destruct (pending_pages marker_in doc db) as [[|q qs]|x] eqn:Hp.
  - rewrite (ingest_nothing_pending image marker_in reply_for) by auto.
    discriminate.
  - rewrite (ingest_pending image marker_in reply_for now doc db q qs Hp).
    cbv zeta. cbn [store sent_to_ai returned].
    destruct (process_pages_run now doc (reference_of (file_path doc))
                (q :: qs) 0%nat db 0%nat) as [added [Hdb [_ Hout]]].
    destruct (outcome _) as [m|x]; [|discriminate].
    intros H. injection H as <-.
    destruct (Hout m eq_refl) as [Hm [Hl Hs]].
    exists (q :: qs). split; [reflexivity|]. split; [exact Hs|].
    split; [exact Hm|].
    rewrite Hdb. unfold add_rows. simpl exercises_table.
    rewrite length_app, Hl. rewrite Hm. reflexivity.
  - rewrite (ingest_nothing_pending image marker_in reply_for) by eauto.
    discriminate.
Qed.

End RunFacts.

Lemma returned_count_sums_listed_pages_witness :
  exists pages,
    pending_pages Sample.marker_in Sample.book Sample.empty_db = Ok pages /\
    sent_to_ai (process_document Sample.marker_in Sample.reply_for
                  Sample.clock Sample.book Sample.empty_db) = pages /\
    4%nat = list_sum (map (records_on Sample.reply_for Sample.book) pages) /\
    List.length
      (exercises_table
         (store (process_document Sample.marker_in Sample.reply_for
                   Sample.clock Sample.book Sample.empty_db))) =
    (List.length (exercises_table Sample.empty_db) + 4)%nat.
Proof.
  apply (returned_count_sums_listed_pages nat Sample.marker_in
           Sample.reply_for Sample.clock Sample.book Sample.empty_db 4).
  reflexivity.
Defined.

(** ** Ingestion: images of the listed pages, and a page that raises *)

Section AbortFacts.

Variable image : Type.
Variable marker_in : string -> bool.
Variable reply_for : image -> page_reply.

Lemma candidate_pages_in_document (doc : document image) sel p :
  candidate_pages marker_in doc = Ok sel ->
  In p sel ->
  1 <= p <= Z.of_nat (List.length (pdf_pages doc)).
Proof.
  unfold candidate_pages, get_exercise_pages, pdfgrep_n.
  rewrite pages_of_pdfgrep. simpl.
  destruct (match_pages_from marker_in 1 (pdf_pages doc)) as [|q qs] eqn:Hm;
    intros H Hp; injection H as <-.
  - apply range1_In. exact Hp.
  - rewrite <- Hm in Hp. apply match_pages_lower in Hp. lia.
Qed.

Lemma selector_page_has_image
  (doc : document image) (sel : list Z) (p : Z) :
  candidate_pages marker_in doc = Ok sel ->
  In p sel ->
  exists pg,
    nth_error (pdf_pages doc) (Z.to_nat (p - 1)) = Some pg /\
    Py.index (page_imgs doc) (p - 1) = Ok (rendered pg).
Proof.
  intros Hsel Hin.
  pose proof (candidate_pages_in_document doc sel p Hsel Hin) as Hbound.
  destruct (nth_error (pdf_pages doc) (Z.to_nat (p - 1))) as [pg|] eqn:Hnth.
  - exists pg. split; [reflexivity|].
    unfold Py.index, page_imgs. rewrite length_map.
    destruct (Z.ltb_spec (p - 1) 0); [lia|].
    destruct (Z.leb_spec 0 (p - 1)); [|lia].
    destruct (Z.ltb_spec (p - 1) (Z.of_nat (List.length (pdf_pages doc))));
      [|lia].
    simpl. rewrite nth_error_map, Hnth. reflexivity.
  - apply nth_error_None in Hnth. lia.
Qed.

(** Every page the selector lists has a rendered image, so
    [page_imgs[p - 1]] in the loop never raises [IndexError]. *)
Theorem listed_page_has_image
  (doc : document image) (sel : list Z) (p : Z) :
  candidate_pages marker_in doc = Ok sel ->
  In p sel ->
  exists pg,
    nth_error (pdf_pages doc) (Z.to_nat (p - 1)) = Some pg /\
    Py.index (page_imgs doc) (p - 1) = Ok (rendered pg).
Proof. apply selector_page_has_image. Qed.

Lemma process_pages_until_failure now (doc : document image) ref q post :
  page_kind_of reply_for doc q = Fails ->
  (exists im, Py.index (page_imgs doc) (q - 1) = Ok im) ->
  forall pre i db num,
    Forall (fun p => page_kind_of reply_for doc p <> Fails) pre ->
    let r := process_pages reply_for now doc ref i (pre ++ q :: post) db num in
    exists added,
      db_after r = add_rows db added /\
      pages_sent r = (pre ++ [q])%list /\
      (exists x, outcome r = Raise x) /\
      Forall (fun e => In (page e) pre /\ reference e = ref) added /\
      forall p, In p pre -> page_kind_of reply_for doc p = Stores ->
                exists e, In e added /\ page e = p /\ reference e = ref.
Proof.
  intros Hq [im Him]. induction pre as [|p pre IH]; intros i db num Hpre r;
    subst r.
  - cbn [List.app]. rewrite process_pages_step.
    pose proof (page_rows_kind image reply_for now doc ref i q) as Hkind.
    rewrite Hq in Hkind. destruct Hkind as [x Hx]. rewrite Hx, Him.
    exists []. simpl. rewrite add_rows_nil. repeat split; eauto.
    intros p [].
  - inversion Hpre as [|? ? Hp Hpre']; subst.
    change ((p :: pre) ++ q :: post)%list with (p :: (pre ++ q :: post))%list.
    rewrite process_pages_step.
    pose proof (page_rows_kind image reply_for now doc ref i p) as Hkind.
    destruct (page_kind_of reply_for doc p) eqn:Hk; [| |congruence].
    + rewrite Hkind. rewrite add_rows_nil, Nat.add_0_r.
      destruct (IH (S i) db num Hpre') as [added [Hdb [Hs [Hx [Hall Hst]]]]].
      exists added. simpl. split; [exact Hdb|].
      split; [rewrite Hs; reflexivity|]. split; [exact Hx|]. split.
      * eapply Forall_impl; [|exact Hall]. simpl. intros e [H1 H2]. auto.
      * intros p' [<-|Hin] Hs'; [congruence|]. apply Hst; assumption.
    + destruct Hkind as [rows [Hrows [Hne Hrall]]]. rewrite Hrows.
      destruct (IH (S i) (add_rows db rows) (num + List.length rows)%nat Hpre')
        as [added [Hdb [Hs [Hx [Hall Hst]]]]].
      exists (rows ++ added)%list. simpl.
      split; [rewrite Hdb; apply add_rows_app|].
      split; [rewrite Hs; reflexivity|]. split; [exact Hx|]. split.
      * apply Forall_app. split.
        -- eapply Forall_impl; [|exact Hrall]. simpl. intros e [H1 H2]. auto.
        -- eapply Forall_impl; [|exact Hall]. simpl. intros e [H1 H2]. auto.
      * intros p' [<-|Hin] Hs'.
        -- destruct rows as [|e0 rows]; [congruence|].
           inversion Hrall as [|? ? [H1 H2] _]; subst.
           exists e0. split; [left; reflexivity | auto].
        -- destruct (Hst p' Hin Hs') as [e [He Hpe]].
           exists e. split; [apply in_or_app; right; exact He | exact Hpe].
Qed.

(** When a pending page raises (the service call fails, the table of
    contents gives no section for it, or its batch cannot be bound), the
    run returns [None]; the pages listed after it are not sent to the AI
    service; the pages before it that gave exercises keep their rows, and
    no row is stored for any other page. *)
Theorem failing_page_ends_the_run
  (now : nat -> nat -> string) (doc : document image) (db : database)
  (pre post : list Z) (q : Z) :
  pending_pages marker_in doc db = Ok (pre ++ q :: post)%list ->
  Forall (fun p => page_kind_of reply_for doc p <> Fails) pre ->
  page_kind_of reply_for doc q = Fails ->
  let r := process_document marker_in reply_for now doc db in
  let ref := reference_of (file_path doc) in
  returned r = None /\
  sent_to_ai r = (pre ++ [q])%list /\
  (forall p, In p pre -> page_kind_of reply_for doc p = Stores ->
             has_row (store r) ref p = true) /\
  (forall p, has_row (store r) ref p = true ->
             has_row db ref p = true \/ In p pre).
Proof.
  intros Hp Hpre Hq r ref.
  destruct (pending_pages_inv image marker_in doc db _ Hp)
    as [cand [Hc [_ Hpages]]].
  assert (Him : exists im, Py.index (page_imgs doc) (q - 1) = Ok im).
  { assert (Hin : In q cand).
    { assert (H : In q (pre ++ q :: post)%list)
        by (apply in_or_app; right; left; reflexivity).
      rewrite Hpages in H. apply filter_In in H. tauto. }
    destruct (selector_page_has_image doc cand q Hc Hin) as [pg [_ H]]. eauto. }
  destruct (process_pages_until_failure now doc ref q post Hq Him
              pre 0%nat db 0%nat Hpre)
    as [added [Hdb [Hs [[x Hx] [Hall Hst]]]]].
  subst r. unfold process_document. rewrite Hp.
  destruct (pre ++ q :: post)%list as [|p0 ps] eqn:Hsplit.
  { destruct pre; discriminate. }
  fold ref. cbn [returned sent_to_ai store].
  rewrite Hx, Hs, Hdb. split; [reflexivity|]. split; [reflexivity|]. split.
  - intros p Hin Hk. destruct (Hst p Hin Hk) as [e [He [Hpe Hre]]].
    apply has_row_spec. exists e. split; [|split; [exact Hpe|]].
    + unfold add_rows. simpl. apply in_or_app. right. exact He.
    + rewrite Hre. apply like_refl.
  - intros p Hrow. rewrite has_row_add_rows in Hrow.
    apply orb_true_iff in Hrow. destruct Hrow as [Hrow|Hrow]; [left; exact Hrow|].
    right. apply existsb_exists in Hrow. destruct Hrow as [e [He Hm]].
    apply andb_true_iff in Hm. destruct Hm as [Hpe _].
    apply Z.eqb_eq in Hpe. rewrite Forall_forall in Hall.
    destruct (Hall e He) as [Hin _]. rewrite <- Hpe. exact Hin.
Qed.

End AbortFacts.

Lemma listed_page_has_image_witness :
  exists pg,
    nth_error (pdf_pages Sample.book) (Z.to_nat (3 - 1)) = Some pg /\
    Py.index (page_imgs Sample.book) (3 - 1) = Ok (rendered pg).
Proof.
  apply (listed_page_has_image nat Sample.marker_in Sample.book [2; 2; 3] 3).
  - reflexivity.
  - simpl. auto.
Defined.

Lemma failing_page_ends_the_run_witness :
  let r := process_document Sample.marker_in Sample.reply_for Sample.clock
             Sample.draft Sample.empty_db in
  let ref := reference_of (file_path Sample.draft) in
  returned r = None /\
  sent_to_ai r = ([1] ++ [2])%list /\
  (forall p, In p [1] -> page_kind_of Sample.reply_for Sample.draft p = Stores ->
             has_row (store r) ref p = true) /\
  (forall p, has_row (store r) ref p = true ->
             has_row Sample.empty_db ref p = true \/ In p [1]).
Proof.
  apply (failing_page_ends_the_run nat Sample.marker_in Sample.reply_for
           Sample.clock Sample.draft Sample.empty_db [1] [3] 2).
  - reflexivity.
  - constructor; [vm_compute; discriminate | constructor].
  - reflexivity.
Defined.

(** ** References: file names and [LIKE] *)

Section ReferenceFacts.

Lemma split_on_nonempty c s : split_on c s <> [].
Proof.
  destruct s as [|a s]; simpl; [discriminate|].
  destruct (Ascii.eqb a c); [discriminate|].
  destruct (split_on c s); discriminate.
Qed.

Lemma split_on_app c a b :
  split_on c (a ++ String c b) = (split_on c a ++ split_on c b)%list.
Proof.
  induction a as [|x a IH]; simpl.
  - rewrite Ascii.eqb_refl. reflexivity.
  - destruct (Ascii.eqb x c).
    + rewrite IH. reflexivity.
    + rewrite IH. pose proof (split_on_nonempty c a) as Hne.
      destruct (split_on c a) as [|piece pieces]; [congruence|]. reflexivity.
Qed.

Lemma split_on_absent c s : has_char c s = false -> split_on c s = [s].
Proof.
  induction s as [|x s IH]; simpl; intros H; [reflexivity|].
  apply orb_false_iff in H. destruct H as [Hx Hs].
  rewrite Hx, (IH Hs). reflexivity.
Qed.

(** Joining the pieces of a split gives the string back. *)
Lemma join_split_on c s : join (String c "") (split_on c s) = s.
Proof.
  induction s as [|x s IH]; simpl; [reflexivity|].
  pose proof (split_on_nonempty c s) as Hne.
  destruct (Ascii.eqb_spec x c) as [->|Hxc].
  - destruct (split_on c s) as [|piece pieces]; [congruence|].
    change (join (String c "") ("" :: piece :: pieces))
      with (String c (join (String c "") (piece :: pieces))).
    rewrite IH. reflexivity.
  - destruct (split_on c s) as [|piece pieces]; [congruence|].
    destruct pieces as [|p2 pieces].
    + simpl in *. rewrite IH. reflexivity.
    + change (join (String c "") (String x piece :: p2 :: pieces))
        with (String x (piece ++ String c (join (String c "") (p2 :: pieces)))).
      change (join (String c "") (piece :: p2 :: pieces))
        with (piece ++ String c (join (String c "") (p2 :: pieces))) in IH.
      rewrite IH. reflexivity.
Qed.

Lemma basename_of_path dir base :
  has_char "/" base = false ->
  Py.basename (dir ++ String "/" base) = base.
Proof.
  intros H. unfold Py.basename.
  rewrite split_on_app, (split_on_absent _ _ H). apply last_last.
Qed.

(** The reference of a document is its file name without the directory
    and without the last extension; dots inside the name stay. *)
Theorem reference_drops_directory_and_last_extension
  (dir name ext : string) :
  has_char "/" name = false ->
  has_char "/" ext = false ->
  has_char "." ext = false ->
  reference_of (dir ++ String "/" (name ++ String "." ext)) = name.
Proof.
  intros Hn He Hd. unfold reference_of.
  rewrite basename_of_path.
  - rewrite split_on_app, (split_on_absent _ _ Hd), removelast_last.
    apply join_split_on.
  - clear Hd. induction name as [|x name IH]; simpl in *.
    + exact He.
    + apply orb_false_iff in Hn. destruct Hn as [Hx Hn].
      rewrite Hx. simpl. apply IH. exact Hn.
Qed.

Lemma reference_drops_directory_and_last_extension_witness :
  reference_of ("/library" ++ String "/" ("Ross - 2014.v2" ++ String "." "pdf"))
  = "Ross - 2014.v2".
Proof.
  apply (reference_drops_directory_and_last_extension
           "/library" "Ross - 2014.v2" "pdf"); reflexivity.
Defined.

(** A file name without a dot gives the empty reference, so all such
    documents share one reference. *)
Theorem reference_of_name_without_extension_is_empty (dir base : string) :
  has_char "/" base = false ->
  has_char "." base = false ->
  reference_of (dir ++ String "/" base) = "".
Proof.
  intros Hs Hd. unfold reference_of.
  rewrite (basename_of_path dir base Hs), (split_on_absent _ _ Hd).
  reflexivity.
Qed.

Lemma reference_of_name_without_extension_is_empty_witness :
  reference_of ("/tmp/upload" ++ String "/" "README") = "".
Proof.
  apply (reference_of_name_without_extension_is_empty "/tmp/upload" "README");
    reflexivity.
Defined.

(** [LIKE] ignores ASCII case: a pattern matches every string equal to
    it up to the case of letters. *)
Lemma like_nocase s : forall t,
  Sql.lower_string s = Sql.lower_string t -> Sql.like s t = true.
Proof.
  induction s as [|c s IH]; intros t H.
  - destruct t; [reflexivity | discriminate].
  - destruct t as [|d t]; [discriminate|].
    simpl in H. injection H as Hc Hs.
    destruct (Ascii.eqb c "%") eqn:E.
    + apply Ascii.eqb_eq in E. subst c.
      rewrite like_percent. apply orb_true_iff. right.
      rewrite like_percent. rewrite (IH t Hs). reflexivity.
    + simpl. rewrite E. rewrite (IH t Hs), andb_true_r.
      destruct (Ascii.eqb c "_"); [reflexivity|].
      rewrite Hc. apply Ascii.eqb_refl.
Qed.

End ReferenceFacts.

Section SharedReferences.

Variable image : Type.
Variable marker_in : string -> bool.
Variable reply_for : image -> page_reply.


End SharedReferences.


(** ** The store: saving rows and asking for stored pages *)

Section StoreFacts.

Lemma unique_NoDup l : forall seen, NoDup (Store.unique seen l).
Proof.
  induction l as [|a l IH]; intros seen; simpl; [constructor|].
  destruct (Store.mem_Z a seen) eqn:Hmem; [apply IH|].
  constructor; [|apply IH].
  intros H. apply unique_In in H. destruct H as [_ H]. apply H.
  left. reflexivity.
Qed.

Lemma existing_pages_spec
  (db : database) (ref : string) (pages existing : list Z) :
  Store.existing_pages db ref pages = Ok existing ->
  NoDup existing /\
  forall p, In p existing <-> In p pages /\ has_row db ref p = true.
Proof.
  intros H. split.
  - unfold Store.existing_pages in H.
    destruct (Sql.has_apostrophe ref); [discriminate|].
    injection H as <-. apply unique_NoDup.
  - intros p. split.
    + intros Hin.
      assert (Hp : In p pages).
      { unfold Store.existing_pages in H.
        destruct (Sql.has_apostrophe ref); [discriminate|].
        injection H as <-. apply unique_In in Hin. destruct Hin as [Hin _].
        apply in_map_iff in Hin. destruct Hin as [e [<- He]].
        apply filter_In in He. destruct He as [_ He].
        apply andb_true_iff in He. destruct He as [He _].
        apply mem_Z_In. exact He. }
      split; [exact Hp|].
      rewrite <- (existing_pages_has_row db ref pages existing p H Hp).
      apply mem_Z_In. exact Hin.
    + intros [Hp Hrow]. apply mem_Z_In.
      rewrite (existing_pages_has_row db ref pages existing p H Hp).
      exact Hrow.
Qed.





End StoreFacts.

(** ** The attempt history *)

Section HistoryFacts.

Import History.

Lemma insert_desc_perm a l : Permutation (insert_desc a l) (a :: l).
Proof.
  induction l as [|b l IH]; simpl; [reflexivity|].
  destruct (String.leb (attempted_on b) (attempted_on a)); [reflexivity|].
  rewrite IH. apply perm_swap.
Qed.

Lemma insert_desc_sorted a l :
  Sorted newer_first l -> Sorted newer_first (insert_desc a l).
Proof.
  induction l as [|b l IH]; simpl; intros Hs.
  - constructor; constructor.
  - destruct (String.leb (attempted_on b) (attempted_on a)) eqn:Hle.
    + constructor; [exact Hs|]. constructor. exact Hle.
    + inversion Hs as [|? ? Hs' Hhd]; subst.
      constructor; [apply IH; exact Hs'|].
      assert (Hba : newer_first b a).
      { unfold newer_first.
        destruct (String.leb_total (attempted_on a) (attempted_on b));
          [assumption | congruence]. }
      destruct l as [|c l]; simpl.
      * constructor. exact Hba.
      * destruct (String.leb (attempted_on c) (attempted_on a));
          constructor; [exact Hba|].
        inversion Hhd; subst. assumption.
Qed.

Lemma get_attempts_perm_sorted
  (db : database) (ref : string) (pg num : Z) :
  Permutation (get_attempts db ref pg num)
              (filter (fun a => Query.key_eqb (Query.attempt_key a) (ref, pg, num))
                      (attempts_table db)) /\
  Sorted newer_first (get_attempts db ref pg num).
Proof.
  unfold get_attempts, Query.joined.
  set (l := filter _ (attempts_table db)). clearbody l. split.
  - induction l as [|a l IH]; simpl; [reflexivity|].
    rewrite insert_desc_perm. constructor. exact IH.
  - induction l as [|a l IH]; simpl; [constructor|].
    apply insert_desc_sorted. exact IH.
Qed.

(** The history of an exercise holds exactly the attempts recorded for
    its key, each once, the greatest [attempted_on] first. *)
Theorem history_is_sorted_newest_first
  (db : database) (ref : string) (pg num : Z) :
  Permutation (get_attempts db ref pg num)
              (filter (fun a => Query.key_eqb (Query.attempt_key a) (ref, pg, num))
                      (attempts_table db)) /\
  Sorted newer_first (get_attempts db ref pg num).
Proof. apply get_attempts_perm_sorted. Qed.

(** The example of the specification: 01-01, 03-01, 02-01 come back as
    03-01, 02-01, 01-01. *)
Example history_of_three_attempts :
  map attempted_on
    (get_attempts
       (mkDatabase []
          [mkAttempt "book" 2 1 "a" false "f" "2024-01-01";
           mkAttempt "book" 2 1 "b" true "g" "2024-03-01";
           mkAttempt "book" 2 1 "c" false "h" "2024-02-01"])
       "book" 2 1)
  = ["2024-03-01"; "2024-02-01"; "2024-01-01"].
Proof. reflexivity. Qed.

End HistoryFacts.

(** ** Grading and the history *)

Section GradingFacts.

Import History.

Variable image : Type.
Variable marker_in : string -> bool.
Variable reply_for : image -> page_reply.

(** Both writers keep every attempt attached to a stored exercise: the
    solutions page records an attempt only for a key it found in the
    [exercises] table, and an ingestion run removes no exercise. *)
Theorem writers_keep_attempts_attached
  (db : database) (selected : option Query.key) (reply : grading_reply)
  (current_date : string) (now : nat -> nat -> string) (doc : document image) :
  attempts_have_exercises db ->
  attempts_have_exercises (fst (solutions_page selected reply current_date db)) /\
  attempts_have_exercises
    (store (process_document marker_in reply_for now doc db)).
Proof.
  intros Hinv. split.
  - unfold solutions_page. destruct selected as [[[ref pg] num]|]; [|exact Hinv].
    destruct (filter _ (exercises_table db)) as [|e0 l] eqn:Hf; [exact Hinv|].
    assert (He0 : In e0 (exercises_table db) /\
                  Query.exercise_key e0 = (ref, pg, num)).
    { assert (H : In e0 (filter (fun e => Query.key_eqb (Query.exercise_key e)
                                           (ref, pg, num)) (exercises_table db)))
        by (rewrite Hf; left; reflexivity).
      apply filter_In in H. destruct H as [H1 H2].
      apply key_eqb_eq in H2. auto. }
    unfold Grader.process_solution.
    destruct (Grader.extract_solution reply) as [[[t c] f]|x]; [|exact Hinv].
    simpl. intros a Ha. simpl in Ha. apply in_app_or in Ha.
    destruct Ha as [Ha|[<-|[]]].
    + apply Hinv. exact Ha.
    + exists e0. simpl. tauto.
  - destruct (ingestion_appends image marker_in reply_for now doc db)
      as [added [Hex [Hat _]]].
    intros a Ha. rewrite Hat in Ha. destruct (Hinv a Ha) as [e [He Hk]].
    exists e. split; [|exact Hk]. rewrite Hex. apply in_or_app. left. exact He.
Qed.

End GradingFacts.

Lemma writers_keep_attempts_attached_witness :
  History.attempts_have_exercises
    (fst (History.solutions_page (Some ("book", 2, 3)) GradingNotJson
            "2026-11-04" Sample.graded_db)) /\
  History.attempts_have_exercises
    (store (process_document Sample.marker_in Sample.reply_for Sample.clock
              Sample.leaflet Sample.graded_db)).
Proof.
  apply (writers_keep_attempts_attached nat Sample.marker_in Sample.reply_for
           Sample.graded_db (Some ("book", 2, 3)) GradingNotJson "2026-11-04"
           Sample.clock Sample.leaflet).
  intros a Ha. simpl in Ha.
  destruct Ha as [<-|[<-|[<-|[]]]]; eexists; simpl; split;
    [left; reflexivity | reflexivity
    |left; reflexivity | reflexivity
    |right; left; reflexivity | reflexivity].
Defined.

Section HistoryRoundTrip.

Import History.

Lemma joined_insert_same db a :
  Query.joined (Store.insert_attempt a db) (Query.attempt_key a) =
  (Query.joined db (Query.attempt_key a) ++ [a])%list.
Proof.
  unfold Query.joined, Store.insert_attempt. cbn [attempts_table].
  rewrite filter_app. f_equal. cbn [filter].
  rewrite (proj2 (key_eqb_eq _ _) eq_refl). reflexivity.
Qed.

Lemma joined_insert_other db a k :
  Query.attempt_key a <> k ->
  Query.joined (Store.insert_attempt a db) k = Query.joined db k.
Proof.
  intros Hne. unfold Query.joined, Store.insert_attempt. cbn [attempts_table].
  rewrite filter_app. cbn [filter].
  destruct (Query.key_eqb (Query.attempt_key a) k) eqn:Hk.
  - apply key_eqb_eq in Hk. contradiction.
  - apply app_nil_r.
Qed.

(** A usable reply for a stored exercise is shown as the result and
    enters the history of that exercise, which grows by one; the
    histories of the other exercises and the [exercises] table are left
    as they were. *)
Theorem graded_attempt_enters_history
  (db : database) (ref : string) (pg num : Z) (t : string) (c : bool)
  (f date : string) :
  (exists e, In e (exercises_table db) /\
             Query.exercise_key e = (ref, pg, num)) ->
  let reply := GradingObject (mkGrading (Some t) (Some c) (Some f)) in
  let db' := fst (solutions_page (Some (ref, pg, num)) reply date db) in
  snd (solutions_page (Some (ref, pg, num)) reply date db) =
    Processed (Grader.Success t c f) /\
  In (mkAttempt ref pg num t c f date) (get_attempts db' ref pg num) /\
  List.length (get_attempts db' ref pg num) =
    S (List.length (get_attempts db ref pg num)) /\
  (forall ref' pg' num',
     (ref', pg', num') <> (ref, pg, num) ->
     get_attempts db' ref' pg' num' = get_attempts db ref' pg' num') /\
  exercises_table db' = exercises_table db.
Proof.
  intros [e [He Hk]] reply db'. subst reply db'.
  unfold solutions_page.
  destruct (filter (fun e0 => Query.key_eqb (Query.exercise_key e0) (ref, pg, num))
                   (exercises_table db)) as [|e0 l] eqn:Hf.
  { exfalso.
    assert (H : In e (filter (fun e0 => Query.key_eqb (Query.exercise_key e0)
                                          (ref, pg, num)) (exercises_table db))).
    { apply filter_In. split; [exact He|]. apply key_eqb_eq. exact Hk. }
    rewrite Hf in H. destruct H. }
  simpl.
  set (a := mkAttempt ref pg num t c f date).
  assert (Hka : Query.attempt_key a = (ref, pg, num)) by reflexivity.
  assert (Hj : Query.joined (Store.insert_attempt a db) (ref, pg, num) =
               (Query.joined db (ref, pg, num) ++ [a])%list).
  { rewrite <- Hka. apply joined_insert_same. }
  destruct (get_attempts_perm_sorted (Store.insert_attempt a db) ref pg num)
    as [Hperm' _].
  destruct (get_attempts_perm_sorted db ref pg num) as [Hperm _].
  fold (Query.joined (Store.insert_attempt a db) (ref, pg, num)) in Hperm'.
  fold (Query.joined db (ref, pg, num)) in Hperm.
  rewrite Hj in Hperm'.
  split; [reflexivity|]. split; [|split; [|split; [|reflexivity]]].
  - eapply Permutation_in; [symmetry; exact Hperm'|].
    apply in_or_app. right. left. reflexivity.
  - rewrite (Permutation_length Hperm'), (Permutation_length Hperm).
    rewrite length_app. simpl. lia.
  - intros ref' pg' num' Hne. unfold get_attempts.
    rewrite joined_insert_other; [reflexivity|].
    rewrite Hka. congruence.
Qed.

Lemma graded_attempt_enters_history_witness :
  let reply := GradingObject (mkGrading (Some "A = B") (Some true) (Some "Correct.")) in
  let db' := fst (solutions_page (Some ("book", 2, 3)) reply "2024-04-01"
                    Sample.graded_db) in
  snd (solutions_page (Some ("book", 2, 3)) reply "2024-04-01" Sample.graded_db) =
    Processed (Grader.Success "A = B" true "Correct.") /\
  In (mkAttempt "book" 2 3 "A = B" true "Correct." "2024-04-01")
     (get_attempts db' "book" 2 3) /\
  List.length (get_attempts db' "book" 2 3) =
    S (List.length (get_attempts Sample.graded_db "book" 2 3)) /\
  (forall ref' pg' num',
     (ref', pg', num') <> ("book", 2, 3) ->
     get_attempts db' ref' pg' num' =
     get_attempts Sample.graded_db ref' pg' num') /\
  exercises_table db' = exercises_table Sample.graded_db.
Proof.
  apply (graded_attempt_enters_history Sample.graded_db "book" 2 3
           "A = B" true "Correct." "2024-04-01").
  eexists. split; [right; right; left; reflexivity | reflexivity].
Defined.

End HistoryRoundTrip.

(** ** The exercise query: filters and aggregates *)

Section FilterFacts.

Import Query.

Lemma get_exercises_in db tf rf st r :
  In r (get_exercises db tf rf st) <->
  exists e,
    In e (group_heads [] (exercises_table db)) /\
    r = mkRow e (attempt_count (joined db (exercise_key e)))
              (is_solved (joined db (exercise_key e))) /\
    having tf rf st r = true.
Proof.
  unfold get_exercises. rewrite filter_In, in_map_iff. split.
  - intros [[e [<- He]] Hh]. exists e. auto.
  - intros [e [He [-> Hh]]]. split; [exists e; auto | exact Hh].
Qed.

Lemma group_heads_distinct rows : forall seen,
  NoDup (map exercise_key rows) ->
  (forall e, In e rows -> ~ In (exercise_key e) seen) ->
  group_heads seen rows = rows.
Proof.
  induction rows as [|a rows IH]; intros seen Hnd Hseen; simpl; [reflexivity|].
  inversion Hnd as [|? ? Hnot Hnd']; subst.
  destruct (existsb (key_eqb (exercise_key a)) seen) eqn:Hmem.
  - apply mem_key in Hmem. exfalso. apply (Hseen a); [left; reflexivity|].
    exact Hmem.
  - f_equal. apply IH; [exact Hnd'|].
    intros e He [Hk|Hin].
    + apply Hnot. rewrite Hk. apply in_map. exact He.
    + apply (Hseen e); [right; exact He | exact Hin].
Qed.

Lemma max_verdicts_bound atts :
  0 <= fold_right Z.max 0 (map (fun a => Z.b2z (is_solution_correct a)) atts) <= 1.
Proof.
  induction atts as [|a atts IH]; simpl; [lia|].
  destruct (is_solution_correct a); simpl; lia.
Qed.

Lemma is_solved_one atts :
  sql_eq (is_solved atts) 1 = true <->
  exists a, In a atts /\ is_solution_correct a = true.
Proof.
  destruct atts as [|a0 atts].
  - simpl. split; [discriminate | intros [a [[] _]]].
  - unfold is_solved, sql_eq. rewrite Z.eqb_eq.
    pose proof (max_verdicts_bound (a0 :: atts)) as Hb.
    pose proof (max_verdicts_zero (a0 :: atts)) as Hz.
    split.
    + intros H1.
      destruct (existsb is_solution_correct (a0 :: atts)) eqn:Hex.
      * apply existsb_exists in Hex. exact Hex.
      * exfalso.
        assert (H0 : forall a, In a (a0 :: atts) -> is_solution_correct a = false).
        { intros a Ha. destruct (is_solution_correct a) eqn:Hc; [|reflexivity].
          assert (existsb is_solution_correct (a0 :: atts) = true)
            by (apply existsb_exists; eauto).
          congruence. }
        apply Hz in H0. lia.
    + intros [a [Ha Hc]].
      destruct (Z.eq_dec
                  (fold_right Z.max 0
                     (map (fun a => Z.b2z (is_solution_correct a)) (a0 :: atts)))
                  0) as [H0|H0]; [|lia].
      rewrite Hz in H0. rewrite (H0 a Ha) in Hc. discriminate.
Qed.

Lemma mem_string_In x l : mem_string x l = true <-> In x l.
Proof.
  unfold mem_string. rewrite existsb_exists. split.
  - intros [y [Hy Heq]]. apply String.eqb_eq in Heq. subst. exact Hy.
  - intros H. exists x. split; [exact H | apply String.eqb_refl].
Qed.

(** The status conditions are conjoined: asking for two statuses that
    exclude each other returns no row. *)
Theorem exclusive_statuses_return_nothing
  (db : database) (tf rf st : list string) :
  (In "not_attempted" st /\ In "attempted" st) \/
  (In "correct" st /\ In "incorrect" st) ->
  get_exercises db tf rf st = [].
Proof.
  intros H. unfold get_exercises. apply filter_nil. intros r _.
  unfold having.
  destruct H as [[H1 H2]|[H1 H2]];
    apply mem_string_In in H1; apply mem_string_In in H2; rewrite H1, H2.
  - destruct (row_attempt_count r); simpl;
      rewrite ?andb_false_r; reflexivity.
  - destruct (row_is_solved r) as [z|]; simpl.
    + destruct (Z.eqb_spec z 1) as [->|]; simpl;
        rewrite ?andb_false_r; reflexivity.
    + rewrite ?andb_false_r. reflexivity.
Qed.

Lemma exclusive_statuses_return_nothing_witness :
  get_exercises Sample.graded_db [] [] ["correct"; "incorrect"] = [].
Proof.
  apply (exclusive_statuses_return_nothing Sample.graded_db [] []
           ["correct"; "incorrect"]).
  right. simpl. auto.
Defined.

End FilterFacts.

Section TagFilterFacts.

Lemma like_any s : Sql.like "%" s = true.
Proof.
  induction s as [|a s IH]; [reflexivity|].
  rewrite like_percent. rewrite IH. apply orb_true_r.
Qed.

Lemma like_skip p pre s :
  Sql.like (String "%" p) s = true ->
  Sql.like (String "%" p) (pre ++ s) = true.
Proof.
  intros H. induction pre as [|a pre IH]; [exact H|].
  change (String a pre ++ s) with (String a (pre ++ s)).
  rewrite like_percent. rewrite IH. apply orb_true_r.
Qed.

Lemma like_prefix_nocase t : forall t' p s,
  Sql.lower_string t = Sql.lower_string t' ->
  Sql.like p s = true ->
  Sql.like (t ++ p) (t' ++ s) = true.
Proof.
  induction t as [|c t IH]; intros t' p s Hl Hp.
  - destruct t'; [exact Hp | discriminate].
  - destruct t' as [|d t']; [discriminate|].
    simpl in Hl. injection Hl as Hc Ht.
    change (String c t ++ p) with (String c (t ++ p)).
    change (String d t' ++ s) with (String d (t' ++ s)).
    destruct (Ascii.eqb c "%") eqn:E.
    + apply Ascii.eqb_eq in E. subst c.
      rewrite like_percent. apply orb_true_iff. right.
      rewrite like_percent. rewrite (IH t' p s Ht Hp). reflexivity.
    + simpl. rewrite E. rewrite (IH t' p s Ht Hp), andb_true_r.
      destruct (Ascii.eqb c "_"); [reflexivity|].
      rewrite Hc. apply Ascii.eqb_refl.
Qed.

Lemma like_occurrence (tag occurrence pre post : string) :
  Sql.lower_string tag = Sql.lower_string occurrence ->
  Sql.like ("%" ++ tag ++ "%") (pre ++ occurrence ++ post) = true.
Proof.
  intros H. change ("%" ++ tag ++ "%") with (String "%" (tag ++ "%")).
  apply like_skip. rewrite like_percent. apply orb_true_iff. left.
  apply like_prefix_nocase; [exact H | apply like_any].
Qed.

(** The tag filter [e.tags LIKE '%tag%'] accepts every tag field in
    which the tag occurs, in any letter case. *)
Theorem tag_filter_accepts_occurrences (tag occurrence pre post : string) :
  Sql.lower_string tag = Sql.lower_string occurrence ->
  Sql.like ("%" ++ tag ++ "%") (pre ++ occurrence ++ post) = true.
Proof. apply like_occurrence. Qed.

Lemma tag_filter_accepts_occurrences_witness :
  Sql.like ("%" ++ "derivative" ++ "%")
           ("limits," ++ "Derivative" ++ ",Ch1") = true.
Proof.
  apply (tag_filter_accepts_occurrences "derivative" "Derivative"
           "limits," ",Ch1").
  reflexivity.
Defined.

(** It accepts more than occurrences: [_] and [%] inside a tag are
    wildcards. *)
Example tag_filter_wildcard :
  Sql.like ("%" ++ "a_c" ++ "%") "abc" = true.
Proof. reflexivity. Qed.

End TagFilterFacts.

Section QueryRows.

Import Query.

Lemma distinct_In l : forall seen x,
  In x (distinct seen l) <-> In x l /\ ~ In x seen.
Proof.
  induction l as [|a l IH]; intros seen x; simpl; [tauto|].
  destruct (existsb (String.eqb a) seen) eqn:Hmem.
  - apply mem_string_In in Hmem. rewrite IH. split; [tauto|].
    intros [[->|H] Hn]; [contradiction | tauto].
  - assert (Hn : ~ In a seen).
    { intros Hin. apply mem_string_In in Hin. unfold mem_string in Hin.
      congruence. }
    simpl. rewrite IH. simpl. split.
    + intros [->|[H1 H2]]; tauto.
    + intros [[->|H] Hs]; [tauto|].
      destruct (string_dec a x) as [->|Hne]; [tauto|].
      right. split; [exact H|]. intros [Heq|Hin]; tauto.
Qed.

Lemma distinct_NoDup l : forall seen, NoDup (distinct seen l).
Proof.
  induction l as [|a l IH]; intros seen; simpl; [constructor|].
  destruct (existsb (String.eqb a) seen); [apply IH|].
  constructor; [|apply IH].
  intros H. apply distinct_In in H. destruct H as [_ H]. apply H.
  left. reflexivity.
Qed.

Lemma distinct_length l : forall seen,
  (List.length (distinct seen l) <= List.length l)%nat.
Proof.
  induction l as [|a l IH]; intros seen; simpl; [lia|].
  destruct (existsb (String.eqb a) seen); simpl.
  - specialize (IH seen). lia.
  - specialize (IH (a :: seen)). lia.
Qed.

Lemma attempt_count_spec (atts : list attempt) :
  exists dates,
    NoDup dates /\
    (forall d, In d dates <-> exists a, In a atts /\ attempted_on a = d) /\
    attempt_count atts = List.length dates /\
    (attempt_count atts <= List.length atts)%nat /\
    (attempt_count atts = 0%nat <-> atts = []).
Proof.
  exists (distinct [] (map attempted_on atts)).
  split; [apply distinct_NoDup|]. split; [|split; [reflexivity|split]].
  - intros d. rewrite distinct_In, in_map_iff. split.
    + intros [[a [Ha Hin]] _]. eauto.
    + intros [a [Hin Ha]]. split; [eauto | intros []].
  - unfold attempt_count.
    pose proof (distinct_length (map attempted_on atts) []) as H.
    rewrite length_map in H. exact H.
  - unfold attempt_count. split.
    + destruct atts as [|a atts]; [reflexivity|]. simpl. discriminate.
    + intros ->. reflexivity.
Qed.

(** [attempt_count] is the number of distinct dates among the attempts
    of the exercise: attempts of the same day count once.  It is 0 only
    when there is no attempt. *)
Theorem attempt_count_counts_distinct_dates (atts : list attempt) :
  exists dates,
    NoDup dates /\
    (forall d, In d dates <-> exists a, In a atts /\ attempted_on a = d) /\
    attempt_count atts = List.length dates /\
    (attempt_count atts <= List.length atts)%nat /\
    (attempt_count atts = 0%nat <-> atts = []).
Proof. apply attempt_count_spec. Qed.

(** Two attempts of one day are one in the count. *)
Example attempts_of_one_day :
  attempt_count
    [mkAttempt "book" 2 1 "n!" false "No." "2024-01-01";
     mkAttempt "book" 2 1 "n^2" true "Correct." "2024-01-01"] = 1%nat.
Proof. reflexivity. Qed.

Lemma group_heads_length rows : forall seen,
  (List.length (group_heads seen rows) <= List.length rows)%nat.
Proof.
  induction rows as [|a l IH]; intros seen; simpl; [lia|].
  destruct (existsb (key_eqb (exercise_key a)) seen); simpl.
  - specialize (IH seen). lia.
  - specialize (IH (exercise_key a :: seen)). lia.
Qed.

Lemma unfiltered_rows_spec (db : database) :
  let rows := get_exercises db [] [] [] in
  NoDup (map (fun r => exercise_key (row_exercise r)) rows) /\
  (forall e, In e (exercises_table db) ->
     exists r, In r rows /\ exercise_key (row_exercise r) = exercise_key e) /\
  (forall r, In r rows ->
     In (row_exercise r) (exercises_table db) /\
     row_attempt_count r =
       attempt_count (joined db (exercise_key (row_exercise r))) /\
     row_is_solved r = is_solved (joined db (exercise_key (row_exercise r)))) /\
  (List.length rows <= List.length (exercises_table db))%nat.
Proof.
  intros rows. subst rows.
  assert (Hall : get_exercises db [] [] [] =
                 map (fun e => mkRow e (attempt_count (joined db (exercise_key e)))
                                     (is_solved (joined db (exercise_key e))))
                     (group_heads [] (exercises_table db))).
  { unfold get_exercises. apply forallb_filter_id.
    apply forallb_forall. intros r _. reflexivity. }
  rewrite Hall. split; [|split; [|split]].
  - rewrite map_map. simpl. apply group_heads_nodup.
  - intros e He.
    destruct (group_heads_complete (exercises_table db) [] e He)
      as [e' [He' Hk]]; [intros []|].
    eexists. split; [apply in_map; exact He' | exact Hk].
  - intros r Hr. apply in_map_iff in Hr. destruct Hr as [e [<- He]].
    apply group_heads_in in He. simpl. tauto.
  - rewrite length_map. apply group_heads_length.
Qed.

(** Without filters the query returns one row for each key of the
    [exercises] table, whatever the number of rows with that key; each
    row shows an exercise of the table with the aggregates of its key. *)
Theorem unfiltered_query_lists_each_key_once (db : database) :
  let rows := get_exercises db [] [] [] in
  NoDup (map (fun r => exercise_key (row_exercise r)) rows) /\
  (forall e, In e (exercises_table db) ->
     exists r, In r rows /\ exercise_key (row_exercise r) = exercise_key e) /\
  (forall r, In r rows ->
     In (row_exercise r) (exercises_table db) /\
     row_attempt_count r =
       attempt_count (joined db (exercise_key (row_exercise r))) /\
     row_is_solved r = is_solved (joined db (exercise_key (row_exercise r)))) /\
  (List.length rows <= List.length (exercises_table db))%nat.
Proof. apply unfiltered_rows_spec. Qed.

End QueryRows.

Section FilterComposition.

Import Query.

Lemma optional_filter {A : Type} (f : A -> bool) (l : list A) :
  match l with [] => true | _ :: _ => existsb f l end = true <->
  l = [] \/ exists x, In x l /\ f x = true.
Proof.
  destruct l as [|a l].
  - split; [auto | reflexivity].
  - rewrite existsb_exists. split.
    + intros H. right. exact H.
    + intros [H|H]; [discriminate | exact H].
Qed.

Lemma having_correct tf rf r :
  having tf rf ["correct"] r = true <->
  (tf = [] \/ exists tag, In tag tf /\
                          Sql.like ("%" ++ tag ++ "%") (tags_column r) = true) /\
  (rf = [] \/ In (reference (row_exercise r)) rf) /\
  sql_eq (row_is_solved r) 1 = true.
Proof.
  unfold having. simpl mem_string. cbn iota.
  rewrite !andb_true_iff, !optional_filter.
  split.
  - intros [[[[[Ht Hr] _] _] Hs] _]. split; [exact Ht|]. split; [|exact Hs].
    destruct Hr as [Hr|[ref [Hin Heq]]]; [left; exact Hr|].
    right. apply String.eqb_eq in Heq. rewrite Heq. exact Hin.
  - intros [Ht [Hr Hs]]. repeat split; try assumption.
    destruct Hr as [Hr|Hr]; [left; exact Hr|].
    right. exists (reference (row_exercise r)). split; [exact Hr|].
    apply String.eqb_refl.
Qed.

(** Filters compose by conjunction.  On a table without repeated keys,
    the query with tags, references and the status "correct" returns an
    exercise exactly when its tag field matches one of the tags, its
    reference is one of the references (an empty selection imposes
    nothing), and one of its attempts is correct. *)
Theorem correct_filter_composes_with_tags_and_references
  (db : database) (tf rf : list string) (e : exercise) :
  NoDup (map exercise_key (exercises_table db)) ->
  (exists r, In r (get_exercises db tf rf ["correct"]) /\ row_exercise r = e)
  <->
  In e (exercises_table db) /\
  (tf = [] \/ exists tag, In tag tf /\
                          Sql.like ("%" ++ tag ++ "%") (tags e) = true) /\
  (rf = [] \/ In (reference e) rf) /\
  exists a, In a (attempts_table db) /\
            attempt_key a = exercise_key e /\ is_solution_correct a = true.
Proof.
  intros Hnd.
  assert (Hheads : group_heads [] (exercises_table db) = exercises_table db).
  { apply group_heads_distinct; [exact Hnd | intros x _ []]. }
  split.
  - intros [r [Hr He]]. apply get_exercises_in in Hr.
    destruct Hr as [e0 [He0 [-> Hh]]]. simpl in He. subst e0.
    rewrite Hheads in He0. apply having_correct in Hh.
    destruct Hh as [Ht [Hrf Hs]]. simpl in Hs. apply is_solved_one in Hs.
    destruct Hs as [a [Ha Hc]]. apply joined_spec in Ha.
    split; [exact He0|]. split; [exact Ht|]. split; [exact Hrf|].
    exists a. tauto.
  - intros [He [Ht [Hrf [a [Ha [Hk Hc]]]]]].
    exists (mkRow e (attempt_count (joined db (exercise_key e)))
                  (is_solved (joined db (exercise_key e)))).
    split; [|reflexivity]. apply get_exercises_in.
    exists e. rewrite Hheads. split; [exact He|]. split; [reflexivity|].
    apply having_correct. split; [exact Ht|]. split; [exact Hrf|].
    simpl. apply is_solved_one. exists a. split; [|exact Hc].
    apply joined_spec. auto.
Qed.

Lemma correct_filter_composes_with_tags_and_references_witness :
  (exists r, In r (get_exercises Sample.graded_db ["count"] [] ["correct"]) /\
             row_exercise r =
             mkExercise "book" (Some "Ch1") 2 1 "How many ..." false
               "counting,Ch1" "")
  <->
  In (mkExercise "book" (Some "Ch1") 2 1 "How many ..." false "counting,Ch1" "")
     (exercises_table Sample.graded_db) /\
  (["count"] = [] \/
   exists tag, In tag ["count"] /\
               Sql.like ("%" ++ tag ++ "%")
                 (tags (mkExercise "book" (Some "Ch1") 2 1 "How many ..." false
                          "counting,Ch1" "")) = true) /\
  (@nil string = [] \/
   In (reference (mkExercise "book" (Some "Ch1") 2 1 "How many ..." false
                    "counting,Ch1" "")) []) /\
  exists a, In a (attempts_table Sample.graded_db) /\
            attempt_key a =
            exercise_key (mkExercise "book" (Some "Ch1") 2 1 "How many ..."
                            false "counting,Ch1" "") /\
            is_solution_correct a = true.
Proof.
  apply (correct_filter_composes_with_tags_and_references Sample.graded_db
           ["count"] []).
  simpl. repeat constructor; simpl; intuition discriminate.
Defined.

End FilterComposition.

Section DisplayFacts.

Import Query History.

Lemma truthy_is_solved atts :
  truthy (is_solved atts) = sql_eq (is_solved atts) 1.
Proof.
  destruct atts as [|a atts]; [reflexivity|].
  unfold is_solved, truthy, sql_eq.
  pose proof (max_verdicts_bound (a :: atts)) as Hb.
  destruct (Z.eqb_spec
              (fold_right Z.max 0
                 (map (fun a => Z.b2z (is_solution_correct a)) (a :: atts))) 0);
    destruct (Z.eqb_spec
                (fold_right Z.max 0
                   (map (fun a => Z.b2z (is_solution_correct a)) (a :: atts))) 1);
    simpl; try reflexivity; lia.
Qed.

(** The status line of an exercise panel says what the [attempts] table
    holds for the exercise: "Not attempted" when it has no attempt,
    "Solved" when one of its attempts is correct, "Unsolved" when it has
    attempts and none is correct. *)
Theorem display_status_reflects_attempts (db : database) (r : result_row) :
  In r (get_exercises db [] [] []) ->
  let k := exercise_key (row_exercise r) in
  (display_status r = NotAttempted <->
   forall a, In a (attempts_table db) -> attempt_key a <> k) /\
  (display_status r = Solved <->
   exists a, In a (attempts_table db) /\ attempt_key a = k /\
             is_solution_correct a = true) /\
  (display_status r = Unsolved <->
   (exists a, In a (attempts_table db) /\ attempt_key a = k) /\
   forall a, In a (attempts_table db) -> attempt_key a = k ->
             is_solution_correct a = false).
Proof.
  intros Hr k.
  destruct (unfiltered_rows_spec db) as [_ [_ [Hrows _]]].
  destruct (Hrows r Hr) as [_ [Hcount Hsolved]]. fold k in Hcount, Hsolved.
  set (atts := joined db k) in *.
  destruct (attempt_count_spec atts) as [_ [_ [_ [_ [_ Hzero]]]]].
  assert (Hin : forall a, In a atts <-> In a (attempts_table db) /\ attempt_key a = k)
    by (intros a; apply joined_spec).
  unfold display_status. rewrite Hcount, Hsolved, truthy_is_solved.
  destruct (Nat.eqb_spec (attempt_count atts) 0) as [H0|H0].
  - apply Hzero in H0. split; [|split].
    + split; [|reflexivity]. intros _ a Ha Hk.
      assert (H : In a atts) by (apply Hin; auto).
      rewrite H0 in H. destruct H.
    + split; [discriminate|]. intros [a [Ha [Hk _]]].
      assert (H : In a atts) by (apply Hin; auto).
      rewrite H0 in H. destruct H.
    + split; [discriminate|]. intros [[a [Ha Hk]] _].
      assert (H : In a atts) by (apply Hin; auto).
      rewrite H0 in H. destruct H.
  - assert (Hne : atts <> []) by (intros H; apply H0, Hzero, H).
    assert (Hex : exists a, In a (attempts_table db) /\ attempt_key a = k).
    { destruct atts as [|a l] eqn:Ha; [congruence|].
      exists a. apply Hin. left. reflexivity. }
    destruct (sql_eq (is_solved atts) 1) eqn:Hs.
    + apply is_solved_one in Hs. destruct Hs as [a [Ha Hc]].
      apply Hin in Ha. split; [|split].
      * split; [discriminate|]. intros H. exfalso.
        destruct Hex as [b [Hb Hkb]]. apply (H b Hb Hkb).
      * split; [|reflexivity]. intros _. exists a. tauto.
      * split; [discriminate|]. intros [_ H].
        rewrite (H a (proj1 Ha) (proj2 Ha)) in Hc. discriminate.
    + split; [|split].
      * split; [discriminate|]. intros H. exfalso.
        destruct Hex as [b [Hb Hkb]]. apply (H b Hb Hkb).
      * split; [discriminate|]. intros [a [Ha [Hk Hc]]].
        assert (Ht : sql_eq (is_solved atts) 1 = true).
        { apply is_solved_one. exists a. split; [apply Hin; auto | exact Hc]. }
        congruence.
      * split; [|reflexivity]. intros _. split; [exact Hex|].
        intros a Ha Hk. destruct (is_solution_correct a) eqn:Hc; [|reflexivity].
        assert (Ht : sql_eq (is_solved atts) 1 = true).
        { apply is_solved_one. exists a. split; [apply Hin; auto | exact Hc]. }
        congruence.
Qed.

End DisplayFacts.

Lemma display_status_reflects_attempts_witness :
  let r := Query.mkRow
             (mkExercise "book" (Some "Ch1") 2 1 "How many ..." false
                "counting,Ch1" "") 2 (Some 1) in
  let k := Query.exercise_key (Query.row_exercise r) in
  (History.display_status r = History.NotAttempted <->
   forall a, In a (attempts_table Sample.graded_db) -> Query.attempt_key a <> k) /\
  (History.display_status r = History.Solved <->
   exists a, In a (attempts_table Sample.graded_db) /\ Query.attempt_key a = k /\
             is_solution_correct a = true) /\
  (History.display_status r = History.Unsolved <->
   (exists a, In a (attempts_table Sample.graded_db) /\ Query.attempt_key a = k) /\
   forall a, In a (attempts_table Sample.graded_db) -> Query.attempt_key a = k ->
             is_solution_correct a = false).
Proof.
  apply (display_status_reflects_attempts Sample.graded_db).
  left. reflexivity.
Defined.

(** ** The schema *)

Section SchemaFacts.

Import Schema.

(** [setup] loses nothing: a table that exists keeps its rows.  It
    always leaves an [exercises] table, but it creates the [attempts]
    table only when the [exercises] table was missing, so a file with
    [exercises] and without [attempts] is left without [attempts]. *)
Theorem setup_keeps_rows_and_may_leave_attempts_missing (f : file) :
  (forall rows, exercises_tbl f = Some rows ->
                exercises_tbl (setup f) = Some rows) /\
  (forall rows, attempts_tbl f = Some rows ->
                attempts_tbl (setup f) = Some rows) /\
  exercises_tbl (setup f) <> None /\
  (attempts_tbl (setup f) = None <->
   exercises_tbl f <> None /\ attempts_tbl f = None) /\
  setup (setup f) = setup f.
Proof.
  destruct f as [[ex|] [att|]]; unfold setup; simpl;
    repeat split; try congruence; try discriminate;
    try (intros [H _]; congruence); try (intros H; discriminate H);
    try (intros [_ H]; discriminate H).
Qed.

(** [reset] followed by [setup] gives two empty tables when the
    [exercises] table existed; when it did not, [reset] drops nothing and
    the rows of an existing [attempts] table survive both. *)
Theorem reset_then_setup (f : file) :
  (exercises_tbl f <> None ->
   open (setup (reset f)) = Some (mkDatabase [] [])) /\
  (exercises_tbl f = None ->
   reset f = f /\ attempts_tbl (setup (reset f)) =
                  match attempts_tbl f with
                  | Some rows => Some rows
                  | None => Some []
                  end).
Proof.
  destruct f as [[ex|] [att|]]; unfold reset, setup, open; simpl; split;
    try (intros H; congruence); try (intros _; auto).
Qed.

End SchemaFacts.

(** ** The sidebar lists *)

Section SidebarFacts.

Import Sidebar.

Lemma insert_sorted_perm s l : Permutation (insert_sorted s l) (s :: l).
Proof.
  induction l as [|x l IH]; simpl; [reflexivity|].
  destruct (String.leb s x); [reflexivity|].
  rewrite IH. apply perm_swap.
Qed.

Lemma sorted_perm l : Permutation (sorted l) l.
Proof.
  induction l as [|s l IH]; simpl; [reflexivity|].
  rewrite insert_sorted_perm. constructor. exact IH.
Qed.

Lemma insert_sorted_ascending s l :
  Sorted ascending l -> Sorted ascending (insert_sorted s l).
Proof.
  induction l as [|x l IH]; simpl; intros Hs.
  - constructor; constructor.
  - destruct (String.leb s x) eqn:Hle.
    + constructor; [exact Hs|]. constructor. exact Hle.
    + inversion Hs as [|? ? Hs' Hhd]; subst.
      constructor; [apply IH; exact Hs'|].
      assert (Hxs : ascending x s).
      { unfold ascending. destruct (String.leb_total s x); congruence. }
      destruct l as [|y l]; simpl.
      * constructor. exact Hxs.
      * destruct (String.leb s y); constructor; [exact Hxs|].
        inversion Hhd; subst. assumption.
Qed.

Lemma sorted_ascending l : Sorted ascending (sorted l).
Proof.
  induction l as [|s l IH]; simpl; [constructor|].
  apply insert_sorted_ascending. exact IH.
Qed.

Lemma sorted_distinct_spec l :
  Sorted ascending (sorted (Query.distinct [] l)) /\
  NoDup (sorted (Query.distinct [] l)) /\
  forall x, In x (sorted (Query.distinct [] l)) <-> In x l.
Proof.
  split; [apply sorted_ascending|]. split.
  - eapply Permutation_NoDup; [symmetry; apply sorted_perm|].
    apply distinct_NoDup.
  - intros x. split.
    + intros H. apply (Permutation_in _ (sorted_perm _)) in H.
      apply distinct_In in H. tauto.
    + intros H. apply (Permutation_in _ (Permutation_sym (sorted_perm _))).
      apply distinct_In. split; [exact H | intros []].
Qed.

(** The reference list of the sidebar is ascending and without
    repetition, holds exactly the references of the stored exercises, and
    each of its entries, chosen as the only filter, selects at least one
    exercise. *)
Theorem reference_list_is_sorted_and_selects (db : database) :
  Sorted ascending (get_all_references db) /\
  NoDup (get_all_references db) /\
  (forall ref, In ref (get_all_references db) <->
               exists e, In e (exercises_table db) /\ reference e = ref) /\
  (forall ref, In ref (get_all_references db) ->
     exists r, In r (Query.get_exercises db [] [ref] []) /\
               reference (Query.row_exercise r) = ref).
Proof.
  unfold get_all_references.
  destruct (sorted_distinct_spec (map reference (exercises_table db)))
    as [Hs [Hnd Hin]].
  split; [exact Hs|]. split; [exact Hnd|].
  assert (Hiff : forall ref,
            In ref (sorted (Query.distinct [] (map reference (exercises_table db))))
            <-> exists e, In e (exercises_table db) /\ reference e = ref).
  { intros ref. rewrite Hin, in_map_iff. split; intros [e [H1 H2]]; eauto. }
  split; [exact Hiff|].
  intros ref Href. apply Hiff in Href. destruct Href as [e [He Hr]].
  destruct (group_heads_complete (exercises_table db) [] e He)
    as [e' [He' Hk]]; [intros []|].
  assert (Hr' : reference e' = ref).
  { unfold Query.exercise_key in Hk. injection Hk as H1 _ _. congruence. }
  exists (Query.mkRow e'
            (Query.attempt_count (Query.joined db (Query.exercise_key e')))
            (Query.is_solved (Query.joined db (Query.exercise_key e')))).
  split; [|exact Hr'].
  apply get_exercises_in. exists e'. split; [exact He'|].
  split; [reflexivity|].
  unfold Query.having. simpl. rewrite Hr', String.eqb_refl. reflexivity.
Qed.

Lemma lstrip_suffix_bounded n : forall s,
  (String.length s <= n)%nat -> exists ws, s = ws ++ lstrip s.
Proof.
  induction n as [|n IH]; intros s Hlen.
  - destruct s; [exists ""; reflexivity | simpl in Hlen; lia].
  - destruct s as [|c rest]; [exists ""; reflexivity|].
    simpl in Hlen. simpl.
    destruct (ascii_space c).
    { destruct (IH rest) as [ws Hws]; [lia|].
      exists (String c ws). simpl. rewrite <- Hws. reflexivity. }
    destruct rest as [|d rest1]; [exists ""; reflexivity|].
    simpl in Hlen.
    destruct (byte_is c 194 && (byte_is d 133 || byte_is d 160)).
    { destruct (IH rest1) as [ws Hws]; [lia|].
      exists (String c (String d ws)). simpl. rewrite <- Hws. reflexivity. }
    destruct rest1 as [|e rest2]; [exists ""; reflexivity|].
    simpl in Hlen.
    match goal with |- exists ws, _ = ws ++ (if ?b then _ else _) =>
      destruct b end.
    + destruct (IH rest2) as [ws Hws]; [lia|].
      exists (String c (String d (String e ws))). simpl.
      rewrite <- Hws. reflexivity.
    + exists "". reflexivity.
Qed.

Lemma lstrip_suffix s : exists ws, s = ws ++ lstrip s.
Proof. apply (lstrip_suffix_bounded (String.length s)). lia. Qed.

Lemma rstrip_prefix s : exists ws, s = rstrip s ++ ws.
Proof.
  induction s as [|c rest IH]; [exists ""; reflexivity|].
  change (rstrip (String c rest))
    with (match lstrip (String c rest) with
          | EmptyString => EmptyString
          | String _ _ => String c (rstrip rest)
          end).
  destruct (lstrip (String c rest)).
  - exists (String c rest). reflexivity.
  - destruct IH as [ws Hws]. exists ws. simpl. rewrite <- Hws. reflexivity.
Qed.

Lemma append_assoc (a b c : string) : (a ++ b) ++ c = a ++ (b ++ c).
Proof.
  induction a as [|x a IH]; simpl; [reflexivity|]. rewrite IH. reflexivity.
Qed.

(** Stripping leaves a part of the string. *)
Lemma strip_inside s : exists ws1 ws2, s = ws1 ++ strip s ++ ws2.
Proof.
  destruct (lstrip_suffix s) as [ws1 H1].
  destruct (rstrip_prefix (lstrip s)) as [ws2 H2].
  exists ws1, ws2. unfold strip. rewrite <- H2. exact H1.
Qed.

Lemma split_on_pieces c s :
  match split_on c s with
  | [] => False
  | p :: ps =>
      (exists post, s = p ++ post) /\
      forall q, In q ps -> exists pre post, s = pre ++ q ++ post
  end.
Proof.
  induction s as [|a s IH]; simpl.
  - split; [exists ""; reflexivity | intros q []].
  - destruct (split_on c s) as [|p ps]; [destruct IH|].
    destruct IH as [[post Hp] Hps].
    destruct (Ascii.eqb a c).
    + split; [exists (String a s); reflexivity|].
      intros q [<-|Hq].
      * exists (String a ""), post. simpl. rewrite <- Hp. reflexivity.
      * destruct (Hps q Hq) as [pre [post' H]].
        exists (String a pre), post'. simpl. rewrite <- H. reflexivity.
    + split.
      * exists post. simpl. rewrite <- Hp. reflexivity.
      * intros q Hq. destruct (Hps q Hq) as [pre [post' H]].
        exists (String a pre), post'. simpl. rewrite <- H. reflexivity.
Qed.

Lemma split_on_piece_inside c s piece :
  In piece (split_on c s) -> exists pre post, s = pre ++ piece ++ post.
Proof.
  intros Hin. pose proof (split_on_pieces c s) as H.
  destruct (split_on c s) as [|p ps]; [destruct Hin|].
  destruct H as [[post Hp] Hps]. destruct Hin as [<-|Hin].
  - exists "", post. exact Hp.
  - apply Hps. exact Hin.
Qed.

Lemma tags_of_field_in t field :
  In t (tags_of_field field) <->
  field <> "" /\ exists piece, In piece (split_on "," field) /\ t = strip piece.
Proof.
  unfold tags_of_field. destruct field as [|c field].
  - split; [intros [] | intros [H _]; congruence].
  - rewrite in_map_iff. split.
    + intros [piece [Hs Hin]]. split; [discriminate|]. exists piece. auto.
    + intros [_ [piece [Hin Hs]]]. exists piece. auto.
Qed.

Lemma get_all_tags_spec (db : database) :
  Sorted ascending (get_all_tags db) /\
  NoDup (get_all_tags db) /\
  forall t, In t (get_all_tags db) <->
    exists e piece,
      In e (exercises_table db) /\ tags e <> "" /\
      In piece (split_on "," (tags e)) /\ t = strip piece.
Proof.
  unfold get_all_tags.
  set (fields := Query.distinct [] (map tags (exercises_table db))).
  destruct (sorted_distinct_spec (flat_map tags_of_field fields))
    as [Hs [Hnd Hin]].
  split; [exact Hs|]. split; [exact Hnd|].
  intros t. rewrite Hin, in_flat_map. split.
  - intros [field [Hf Ht]]. unfold fields in Hf. apply distinct_In in Hf.
    destruct Hf as [Hf _]. apply in_map_iff in Hf. destruct Hf as [e [<- He]].
    apply tags_of_field_in in Ht. destruct Ht as [Hne [piece [Hp Hst]]].
    exists e, piece. auto.
  - intros [e [piece [He [Hne [Hp Hst]]]]]. exists (tags e). split.
    + unfold fields. apply distinct_In. split; [|intros []].
      apply in_map. exact He.
    + apply tags_of_field_in. split; [exact Hne|]. exists piece. auto.
Qed.

(** The tag list of the sidebar is ascending and without repetition and
    holds exactly the stripped pieces, between commas, of the non-empty
    tag fields of the stored exercises. *)
Theorem tag_list_is_sorted_set_of_stripped_pieces (db : database) :
  Sorted ascending (get_all_tags db) /\
  NoDup (get_all_tags db) /\
  forall t, In t (get_all_tags db) <->
    exists e piece,
      In e (exercises_table db) /\ tags e <> "" /\
      In piece (split_on "," (tags e)) /\ t = strip piece.
Proof. apply get_all_tags_spec. Qed.

(** On a table without repeated keys, every tag offered in the sidebar,
    chosen as the only filter, selects at least one exercise. *)
Theorem offered_tag_selects_an_exercise (db : database) (t : string) :
  NoDup (map Query.exercise_key (exercises_table db)) ->
  In t (get_all_tags db) ->
  exists r, In r (Query.get_exercises db [t] [] []).
Proof.
  intros Hnd Ht.
  apply get_all_tags_spec in Ht.
  destruct Ht as [e [piece [He [_ [Hp Hst]]]]].
  destruct (split_on_piece_inside _ _ _ Hp) as [pre [post Htags]].
  destruct (strip_inside piece) as [ws1 [ws2 Hpiece]].
  assert (Hocc : tags e = (pre ++ ws1) ++ t ++ (ws2 ++ post)).
  { rewrite Htags, Hpiece, <- Hst. rewrite !append_assoc. reflexivity. }
  assert (Hlike : Sql.like ("%" ++ t ++ "%") (tags e) = true).
  { rewrite Hocc. apply like_occurrence. reflexivity. }
  exists (Query.mkRow e
            (Query.attempt_count (Query.joined db (Query.exercise_key e)))
            (Query.is_solved (Query.joined db (Query.exercise_key e)))).
  apply get_exercises_in. exists e.
  rewrite (group_heads_distinct _ [] Hnd) by (intros x _ []).
  split; [exact He|]. split; [reflexivity|].
  unfold Query.having, Query.tags_column. simpl Query.row_exercise.
  cbn [existsb]. rewrite Hlike. reflexivity.
Qed.

End SidebarFacts.

Lemma offered_tag_selects_an_exercise_witness :
  exists r, In r (Query.get_exercises Sample.graded_db ["counting"] [] []).
Proof.
  apply (offered_tag_selects_an_exercise Sample.graded_db "counting").
  - simpl. repeat constructor; simpl; intuition discriminate.
  - vm_compute. right. left. reflexivity.
Defined.

(** ** Share links *)

Section Base64Facts.

Import Link.

Local Open Scope nat_scope.

Lemma byte_bound c : byte c < 256.
Proof. unfold byte. apply nat_ascii_bounded. Qed.

Lemma b64_char_value n :
  n < 64 ->
  b64_value (b64_char n) = Some n /\ Ascii.eqb (b64_char n) "=" = false.
Proof.
  intros H.
  do 64 (destruct n as [|n]; [split; reflexivity|]).
  lia.
Qed.

Lemma a2b_digit ch rest q lc p v :
  Ascii.eqb ch "=" = false ->
  b64_value ch = Some v ->
  a2b_base64 (String ch rest) q lc p =
  match q with
  | 0 => a2b_base64 rest 1 v 0
  | 1 => out <- a2b_base64 rest 2 (v mod 16) 0 ;;
         Ok (String (ascii_of_nat (lc * 4 + v / 16)) out)
  | 2 => out <- a2b_base64 rest 3 (v mod 4) 0 ;;
         Ok (String (ascii_of_nat (lc * 16 + v / 4)) out)
  | _ => out <- a2b_base64 rest 0 0 0 ;;
         Ok (String (ascii_of_nat (lc * 64 + v)) out)
  end.
Proof.
  intros He Hv. simpl. rewrite He, Hv. reflexivity.
Qed.

Lemma a2b_char n rest q lc p :
  n < 64 ->
  a2b_base64 (String (b64_char n) rest) q lc p =
  match q with
  | 0 => a2b_base64 rest 1 n 0
  | 1 => out <- a2b_base64 rest 2 (n mod 16) 0 ;;
         Ok (String (ascii_of_nat (lc * 4 + n / 16)) out)
  | 2 => out <- a2b_base64 rest 3 (n mod 4) 0 ;;
         Ok (String (ascii_of_nat (lc * 16 + n / 4)) out)
  | _ => out <- a2b_base64 rest 0 0 0 ;;
         Ok (String (ascii_of_nat (lc * 64 + n)) out)
  end.
Proof.
  intros H. destruct (b64_char_value n H) as [Hv He].
  apply a2b_digit; assumption.
Qed.

Lemma first_byte a b :
  b < 256 -> a / 4 * 4 + (a mod 4 * 16 + b / 16) / 16 = a.
Proof.
  intros Hb.
  assert (Hq : b / 16 < 16) by (apply Nat.Div0.div_lt_upper_bound; lia).
  replace ((a mod 4 * 16 + b / 16) / 16) with (a mod 4).
  - pose proof (Nat.div_mod_eq a 4). lia.
  - symmetry. rewrite Nat.add_comm, Nat.div_add by lia.
    rewrite Nat.div_small by exact Hq. reflexivity.
Qed.

Lemma second_left a b :
  b < 256 -> (a mod 4 * 16 + b / 16) mod 16 = b / 16.
Proof.
  intros Hb.
  assert (Hq : b / 16 < 16) by (apply Nat.Div0.div_lt_upper_bound; lia).
  rewrite Nat.add_comm, Nat.Div0.mod_add. apply Nat.mod_small. exact Hq.
Qed.

Lemma second_byte b c :
  c < 256 -> b / 16 * 16 + (b mod 16 * 4 + c / 64) / 4 = b.
Proof.
  intros Hc.
  assert (Hq : c / 64 < 4) by (apply Nat.Div0.div_lt_upper_bound; lia).
  replace ((b mod 16 * 4 + c / 64) / 4) with (b mod 16).
  - pose proof (Nat.div_mod_eq b 16). lia.
  - symmetry. rewrite Nat.add_comm, Nat.div_add by lia.
    rewrite Nat.div_small by exact Hq. reflexivity.
Qed.

Lemma third_left b c :
  c < 256 -> (b mod 16 * 4 + c / 64) mod 4 = c / 64.
Proof.
  intros Hc.
  assert (Hq : c / 64 < 4) by (apply Nat.Div0.div_lt_upper_bound; lia).
  rewrite Nat.add_comm, Nat.Div0.mod_add. apply Nat.mod_small. exact Hq.
Qed.

Lemma third_byte c : c / 64 * 64 + c mod 64 = c.
Proof. pose proof (Nat.div_mod_eq c 64). lia. Qed.

Lemma ascii_of_byte a : ascii_of_nat (byte a) = a.
Proof. apply ascii_nat_embedding. Qed.

Lemma digit_bounds a b c :
  a < 256 -> b < 256 -> c < 256 ->
  a / 4 < 64 /\ a mod 4 * 16 + b / 16 < 64 /\
  b mod 16 * 4 + c / 64 < 64 /\ c mod 64 < 64 /\ a mod 4 * 16 < 64 /\
  b mod 16 * 4 < 64.
Proof.
  intros Ha Hb Hc.
  assert (a / 4 < 64) by (apply Nat.Div0.div_lt_upper_bound; lia).
  assert (b / 16 < 16) by (apply Nat.Div0.div_lt_upper_bound; lia).
  assert (c / 64 < 4) by (apply Nat.Div0.div_lt_upper_bound; lia).
  pose proof (Nat.mod_upper_bound a 4). pose proof (Nat.mod_upper_bound b 16).
  pose proof (Nat.mod_upper_bound c 64). lia.
Qed.

(** Decoding what [urlsafe_b64encode] produced gives the bytes back. *)
Lemma b64_round_trip_bounded n : forall bytes,
  String.length bytes <= n ->
  urlsafe_b64decode (urlsafe_b64encode bytes) = Ok bytes.
Proof.
  unfold urlsafe_b64decode.
  induction n as [|n IH]; intros bytes Hlen.
  - destruct bytes; [reflexivity | simpl in Hlen; lia].
  - destruct bytes as [|a [|b [|c rest]]]; [reflexivity | | |].
    + pose proof (byte_bound a) as Ha.
      destruct (digit_bounds (byte a) 0 0 Ha) as [H1 [_ [_ [_ [H5 _]]]]];
        [lia | lia |].
      cbn [urlsafe_b64encode].
      rewrite (a2b_char _ _ 0 0 0 H1), (a2b_char _ _ 1 _ 0 H5).
      cbn -[Nat.div Nat.modulo].
      replace (byte a / 4 * 4 + byte a mod 4 * 16 / 16) with (byte a).
      * rewrite ascii_of_byte. reflexivity.
      * rewrite Nat.div_mul by lia. pose proof (Nat.div_mod_eq (byte a) 4). lia.
    + pose proof (byte_bound a) as Ha. pose proof (byte_bound b) as Hb.
      destruct (digit_bounds (byte a) (byte b) 0 Ha Hb)
        as [H1 [H2 [_ [_ [_ H6]]]]]; [lia|].
      cbn [urlsafe_b64encode].
      rewrite (a2b_char _ _ 0 0 0 H1), (a2b_char _ _ 1 _ 0 H2),
        (a2b_char _ _ 2 _ 0 H6).
      cbn -[Nat.div Nat.modulo].
      rewrite first_byte, second_left by exact Hb.
      replace (byte b / 16 * 16 + byte b mod 16 * 4 / 4) with (byte b).
      * rewrite !ascii_of_byte. reflexivity.
      * rewrite Nat.div_mul by lia. pose proof (Nat.div_mod_eq (byte b) 16). lia.
    + pose proof (byte_bound a) as Ha. pose proof (byte_bound b) as Hb.
      pose proof (byte_bound c) as Hc.
      destruct (digit_bounds (byte a) (byte b) (byte c) Ha Hb Hc)
        as [H1 [H2 [H3 [H4 _]]]].
      cbn [urlsafe_b64encode].
      rewrite (a2b_char _ _ 0 0 0 H1), (a2b_char _ _ 1 _ 0 H2),
        (a2b_char _ _ 2 _ 0 H3), (a2b_char _ _ 3 _ 0 H4).
      rewrite IH by (simpl in Hlen; lia).
      cbn -[Nat.div Nat.modulo].
      rewrite first_byte, second_left by exact Hb.
      rewrite second_byte, third_left by exact Hc.
      rewrite third_byte, !ascii_of_byte. reflexivity.
Qed.

Lemma b64_round_trip bytes :
  urlsafe_b64decode (urlsafe_b64encode bytes) = Ok bytes.
Proof. apply (b64_round_trip_bounded (String.length bytes)). lia. Qed.

End Base64Facts.

Section QuoteFacts.

Import Link.

Local Open Scope nat_scope.

Lemma replace_app a b s t : replace a b (s ++ t) = replace a b s ++ replace a b t.
Proof.
  induction s as [|c s IH]; simpl; [reflexivity|]. rewrite IH. reflexivity.
Qed.

Lemma quote_plus_cons c rest :
  quote_plus (String c rest) = chunk c ++ quote_plus rest.
Proof.
  unfold quote_plus, chunk. cbn [quote_keeping_space].
  apply replace_app.
Qed.

(** One byte comes back from its chunk, whatever follows. *)
Lemma chunk_decodes c t :
  percent_decode (replace "+" " " (chunk c ++ t)) =
  String c (percent_decode (replace "+" " " t)).
Proof.
  destruct c as [[|] [|] [|] [|] [|] [|] [|] [|]]; reflexivity.
Qed.

Lemma chunk_plain c :
  has_char "&" (chunk c) = false /\ has_char "=" (chunk c) = false /\
  is_ascii (chunk c) = true /\ chunk c <> "".
Proof.
  destruct c as [[|] [|] [|] [|] [|] [|] [|] [|]];
    (split; [reflexivity|]; split; [reflexivity|]; split;
     [reflexivity | discriminate]).
Qed.

Lemma has_char_app c s t :
  has_char c (s ++ t) = has_char c s || has_char c t.
Proof.
  induction s as [|x s IH]; simpl; [reflexivity|].
  rewrite IH. apply orb_assoc.
Qed.

Lemma is_ascii_app s t : is_ascii (s ++ t) = is_ascii s && is_ascii t.
Proof.
  induction s as [|x s IH]; simpl; [reflexivity|].
  rewrite IH. apply andb_assoc.
Qed.

Lemma quote_plus_decodes s :
  percent_decode (replace "+" " " (quote_plus s)) = s.
Proof.
  induction s as [|c s IH]; [reflexivity|].
  rewrite quote_plus_cons, chunk_decodes, IH. reflexivity.
Qed.

Lemma quote_plus_plain s :
  has_char "&" (quote_plus s) = false /\ has_char "=" (quote_plus s) = false /\
  is_ascii (quote_plus s) = true.
Proof.
  induction s as [|c s [IH1 [IH2 IH3]]]; [repeat split|].
  rewrite quote_plus_cons, !has_char_app, is_ascii_app.
  destruct (chunk_plain c) as [H1 [H2 [H3 _]]].
  rewrite H1, H2, H3, IH1, IH2, IH3. repeat split.
Qed.

Lemma quote_plus_nonempty s : s <> "" -> quote_plus s <> "".
Proof.
  destruct s as [|c s]; [congruence|]. intros _.
  rewrite quote_plus_cons. destruct (chunk_plain c) as [_ [_ [_ Hne]]].
  destruct (chunk c); [congruence | discriminate].
Qed.

Lemma utf8_valid_ascii s : is_ascii s = true -> utf8_valid s = true.
Proof.
  induction s as [|c s IH]; [reflexivity|].
  simpl. intros H. apply andb_true_iff in H. destruct H as [Hc Hs].
  rewrite Hc. apply IH. exact Hs.
Qed.

Lemma uint_is_ascii d : is_ascii (NilEmpty.string_of_uint d) = true.
Proof. induction d; simpl; auto. Qed.

Lemma str_is_ascii z : is_ascii (Py.str z) = true.
Proof.
  unfold Py.str, NilZero.string_of_int, NilZero.string_of_uint.
  destruct (Z.to_int z) as [d|d]; destruct d; simpl;
    try reflexivity; apply uint_is_ascii.
Qed.

Lemma str_nonempty z : Py.str z <> "".
Proof.
  unfold Py.str, NilZero.string_of_int, NilZero.string_of_uint.
  destruct (Z.to_int z) as [d|d]; destruct d; simpl; discriminate.
Qed.

Lemma int_of_str z : NilZero.int_of_string (Py.str z) = Some (Z.to_int z).
Proof.
  unfold Py.str. apply NilZero.isi.
  - destruct z; simpl; try discriminate.
    intros H. injection H as H. revert H. apply Unsigned.to_uint_nonnil.
  - destruct z; simpl; try discriminate.
    intros H. injection H as H. revert H. apply Unsigned.to_uint_nonnil.
Qed.

End QuoteFacts.

Section LinkFacts.

Import Link.

Variable unquote_replaced : string -> string.
Variable int_of_other : string -> result Z.

Lemma unquote_quote_plus s :
  utf8_valid s = true ->
  unquote unquote_replaced (replace "+" " " (quote_plus s)) = s.
Proof.
  intros H. unfold unquote. rewrite quote_plus_decodes, H. reflexivity.
Qed.

Lemma split_once_field k v :
  has_char "=" k = false -> split_once (k ++ String "=" v) = Some (k, v).
Proof.
  induction k as [|c k IH]; simpl; intros H; [reflexivity|].
  apply orb_false_iff in H. destruct H as [Hc Hk].
  rewrite Hc, (IH Hk). reflexivity.
Qed.

Lemma field_plain kv : has_char "&" (field kv) = false.
Proof.
  unfold field. destruct (quote_plus_plain (fst kv)) as [H1 _].
  destruct (quote_plus_plain (snd kv)) as [H2 _].
  rewrite has_char_app, H1. simpl. exact H2.
Qed.

Lemma parse_qsl_one f :
  has_char "&" f = false ->
  parse_qsl unquote_replaced f =
  match split_once f with
  | None => []
  | Some (name, value) =>
      match value with
      | EmptyString => []
      | _ => [(unquote unquote_replaced (replace "+" " " name),
               unquote unquote_replaced (replace "+" " " value))]
      end
  end.
Proof.
  intros H. unfold parse_qsl. rewrite (split_on_absent _ _ H). simpl.
  apply app_nil_r.
Qed.

Lemma parse_qsl_cons f qs :
  has_char "&" f = false ->
  parse_qsl unquote_replaced (f ++ String "&" qs) =
  (parse_qsl unquote_replaced f ++ parse_qsl unquote_replaced qs)%list.
Proof.
  intros H. unfold parse_qsl.
  rewrite split_on_app, flat_map_app. reflexivity.
Qed.

Lemma parse_field kv :
  utf8_valid (fst kv) = true -> utf8_valid (snd kv) = true ->
  parse_qsl unquote_replaced (field kv) =
  match snd kv with
  | EmptyString => []
  | _ => [kv]
  end.
Proof.
  intros Hk Hv. rewrite (parse_qsl_one _ (field_plain kv)).
  unfold field. change ("=" ++ quote_plus (snd kv))
    with (String "=" (quote_plus (snd kv))).
  rewrite split_once_field by apply quote_plus_plain.
  destruct kv as [k v]. simpl fst in *. simpl snd in *.
  destruct v as [|c v]; [reflexivity|].
  pose proof (quote_plus_nonempty (String c v)) as Hne.
  destruct (quote_plus (String c v)) as [|q qs] eqn:Hq;
    [exfalso; apply Hne; [discriminate | reflexivity]|].
  rewrite <- Hq, !unquote_quote_plus by assumption. reflexivity.
Qed.

Lemma urlencode_cons kv p params :
  urlencode (kv :: p :: params) =
  field kv ++ String "&" (urlencode (p :: params)).
Proof. reflexivity. Qed.

(** [parse_qs] reads back what [urlencode] wrote, except that fields
    with an empty value are dropped. *)
Lemma parse_urlencode params :
  Forall (fun kv => utf8_valid (fst kv) = true /\ utf8_valid (snd kv) = true)
         params ->
  parse_qsl unquote_replaced (urlencode params) =
  filter (fun kv => negb (String.eqb (snd kv) "")) params.
Proof.
  induction params as [|kv params IH]; intros Hall; [reflexivity|].
  inversion Hall as [|? ? [Hk Hv] Hall']; subst.
  assert (Hone : parse_qsl unquote_replaced (field kv) =
                 if negb (String.eqb (snd kv) "") then [kv] else []).
  { rewrite (parse_field kv Hk Hv). destruct (snd kv); reflexivity. }
  destruct params as [|p params].
  - change (urlencode [kv]) with (field kv). rewrite Hone. simpl.
    destruct (negb (String.eqb (snd kv) "")); reflexivity.
  - rewrite urlencode_cons, (parse_qsl_cons _ _ (field_plain kv)).
    rewrite (IH Hall'), Hone.
    cbn [filter]. destruct (negb (String.eqb (snd kv) "")); reflexivity.
Qed.

Lemma encoded_is_utf8 params :
  utf8_valid (urlencode params) = true.
Proof.
  apply utf8_valid_ascii. induction params as [|kv params IH]; [reflexivity|].
  assert (Hf : is_ascii (field kv) = true).
  { unfold field. destruct (quote_plus_plain (fst kv)) as [_ [_ H1]].
    destruct (quote_plus_plain (snd kv)) as [_ [_ H2]].
    rewrite is_ascii_app, H1. simpl. exact H2. }
  destruct params as [|p params].
  - exact Hf.
  - rewrite urlencode_cons, is_ascii_app, Hf. simpl. exact IH.
Qed.

Lemma link_int_str z : Link.int int_of_other (Py.str z) = Ok z.
Proof.
  unfold Link.int. rewrite int_of_str, DecimalZ.of_to. reflexivity.
Qed.

(** A link made by [encode_exercise_params] for a non-empty reference
    is read back by [decode_exercise_params] as the same reference,
    page and number. *)
Theorem share_link_round_trip (ref : string) (pg num : Z) :
  utf8_valid ref = true ->
  ref <> "" ->
  decode_exercise_params unquote_replaced int_of_other
    (encode_exercise_params ref pg num) = Some (ref, pg, num).
Proof.
  intros Hu Hne. unfold decode_exercise_params, encode_exercise_params.
  rewrite b64_round_trip. cbn [bind].
  unfold decode_utf8. rewrite encoded_is_utf8. cbn [bind].
  rewrite parse_urlencode.
  - cbn [filter snd].
    destruct (String.eqb_spec ref "") as [|_]; [contradiction|].
    destruct (String.eqb_spec (Py.str pg) "") as [H|_];
      [exfalso; exact (str_nonempty pg H)|].
    destruct (String.eqb_spec (Py.str num) "") as [H|_];
      [exfalso; exact (str_nonempty num H)|].
    cbn. rewrite !link_int_str. reflexivity.
  - repeat constructor; simpl; try assumption;
      apply utf8_valid_ascii, str_is_ascii.
Qed.

(** With the empty reference the link cannot be read back: [parse_qs]
    drops the field [ref=], and the missing key makes
    [decode_exercise_params] return [None]. *)
Theorem share_link_of_empty_reference_is_unreadable (pg num : Z) :
  decode_exercise_params unquote_replaced int_of_other
    (encode_exercise_params "" pg num) = None.
Proof.
  unfold decode_exercise_params, encode_exercise_params.
  rewrite b64_round_trip. cbn [bind].
  unfold decode_utf8. rewrite encoded_is_utf8. cbn [bind].
  rewrite parse_urlencode.
  - cbn [filter snd].
    destruct (String.eqb_spec (Py.str pg) "") as [H|_];
      [exfalso; exact (str_nonempty pg H)|].
    destruct (String.eqb_spec (Py.str num) "") as [H|_];
      [exfalso; exact (str_nonempty num H)|].
    reflexivity.
  - repeat constructor; simpl; try reflexivity;
      apply utf8_valid_ascii, str_is_ascii.
Qed.

End LinkFacts.

Lemma share_link_round_trip_witness :
  Link.decode_exercise_params (fun s => s) (fun _ => Raise ValueError)
    (Link.encode_exercise_params "Ross - 2014 & co" 12 3)
  = Some ("Ross - 2014 & co", 12, 3).
Proof.
  apply (share_link_round_trip (fun s => s) (fun _ => Raise ValueError)
           "Ross - 2014 & co" 12 3).
  - reflexivity.
  - discriminate.
Defined.
